(** * timesnap: the deterministic capture scheduler of [index.js]

    A shallow embedding of the exported function of [index.js]: the
    resolution of the frame count and rate, the construction of the marker
    list, its sort, and the loop that drives the page through the markers.

    Conventions of the embedding.
    - A JavaScript number is an exact rational ([Qc]): no rounding, no NaN
      and no infinity.  Integer-valued numbers that the code uses as
      counters (the loop index [i], [markerId], the result of [Math.ceil])
      are [Z].
    - An absent option of the configuration object is [None]; the code's
      truthiness tests ([if (config.frames)], [!fps], [config.start || 0])
      are written out with [truthy].
    - The browser is a [host]: it says which call rejects and what each
      [page.$] query answers.  The function is deterministic in those
      answers, so a run is a function of the configuration and the host.
    - Every call made to the browser, the caller's hooks, the capturer and
      the logger is recorded, in order, in a trace of [event]s. *)

From Stdlib Require Import ZArith QArith Qcanon Qround List Bool String.
From Stdlib Require Import Lia Lqa Sorted Permutation.
Import ListNotations.

Open Scope Z_scope.
Open Scope Qc_scope.

(** ** Numbers *)

Module Num.

Abbreviation number := Qc (only parsing).

(** A rational literal, e.g. [lit 1000]. *)
Definition lit (q : Q) : number := Q2Qc q.

(** An integer used as a number. *)
Definition of_Z (z : Z) : number := Q2Qc (inject_Z z).

(** [Math.ceil] *)
Definition ceil (x : number) : Z := Qceiling x.

Definition eqb (x y : number) : bool := Qc_eq_bool x y.

Definition ltb (x y : number) : bool :=
  match x ?= y with Lt => true | _ => false end.

Definition leb (x y : number) : bool :=
  match x ?= y with Gt => false | _ => true end.

(** The value of a numeric option when JavaScript takes it for true:
    defined and not zero. *)
Definition truthy (x : option number) : option number :=
  match x with
  | Some v => if eqb v 0 then None else Some v
  | None => None
  end.

(** [x || d] *)
Definition or_else (x : option number) (d : number) : number :=
  match truthy x with Some v => v | None => d end.

End Num.

Import Num.

(** A string option is truthy when it is defined and not empty. *)
Definition truthy_string (x : option string) : option string :=
  match x with
  | Some s => if String.eqb s EmptyString then None else Some s
  | None => None
  end.

(** ** The configuration object *)

Record config := {
  cfg_frames : option number;
  cfg_duration : option number;
  cfg_fps : option number;
  cfg_frameNumToTime : option (Z -> number -> number);
  cfg_start : option number;
  cfg_startDelay : option number;
  cfg_maximumAnimationFrameDuration : option number;
  cfg_captureWhileSelectorExists : option string;
  cfg_canvasCaptureMode : option string;
  cfg_viewport : bool;
  cfg_preparePage : bool;
  cfg_preparePageForScreenshot : bool;
  cfg_quiet : bool;
  cfg_logToStdErr : bool
}.

(** The empty configuration [{}]. *)
Definition empty_config : config := {|
  cfg_frames := None;
  cfg_duration := None;
  cfg_fps := None;
  cfg_frameNumToTime := None;
  cfg_start := None;
  cfg_startDelay := None;
  cfg_maximumAnimationFrameDuration := None;
  cfg_captureWhileSelectorExists := None;
  cfg_canvasCaptureMode := None;
  cfg_viewport := false;
  cfg_preparePage := false;
  cfg_preparePageForScreenshot := false;
  cfg_quiet := false;
  cfg_logToStdErr := false
|}.

Definition defaultDuration : number := lit 5.
Definition defaultFPS : number := lit 60.

Definition delayMs (c : config) : number := lit 1000 * or_else (cfg_start c) 0.
Definition startWaitMs (c : config) : number :=
  lit 1000 * or_else (cfg_startDelay c) 0.

(** Lines 61-79: the pair [(framesToCapture, fps)] after the two branches. *)
Definition resolve (c : config) : number * number :=
  match truthy (cfg_frames c) with
  | Some frames =>
      let framesToCapture := frames in
      let fps :=
        match truthy (cfg_fps c) with
        | Some fps => fps
        | None =>
            match truthy (cfg_duration c) with
            | Some duration => framesToCapture / duration
            | None => defaultFPS
            end
        end in
      (framesToCapture, fps)
  | None =>
      let fps :=
        match truthy (cfg_fps c) with
        | Some fps => fps
        | None => defaultFPS
        end in
      let framesToCapture :=
        match truthy (cfg_duration c) with
        | Some duration => duration * fps
        | None => defaultDuration * fps
        end in
      (framesToCapture, fps)
  end.

Definition framesToCapture (c : config) : number := fst (resolve c).
Definition fps (c : config) : number := snd (resolve c).
Definition frameDuration (c : config) : number := lit 1000 / fps c.

(** Lines 83-87: the caller's mapping, or the default one. *)
Definition frameNumToTime (c : config) : Z -> number -> number :=
  match cfg_frameNumToTime c with
  | Some f => f
  | None => fun frameCount _ => (of_Z frameCount - 1) * frameDuration c
  end.

(** ** Markers *)

Inductive marker_type := Capture | OnlyAnimate.

Record marker := {
  time : number;
  type : marker_type;
  data : option Z;          (* [{ frameCount: i }], or undefined *)
  id : Z
}.

(** The two variables [markers] and [markerId] that [addMarker] updates. *)
Record builder := {
  markers : list marker;
  markerId : Z
}.

Definition new_builder : builder := {| markers := []; markerId := 0 |}.

Definition addMarker (b : builder) (t : number) (ty : marker_type)
  (d : option Z) : builder :=
  {| markers := markers b ++ [ {| time := t; type := ty; data := d;
                                  id := markerId b |} ];
     markerId := (markerId b + 1)%Z |}.

(** [for (let i = i0; test i; i++) s = body i s].  The fuel bounds the number
    of iterations; each use passes a bound that the loop does not reach
    ([for_loop_exit]). *)
Fixpoint for_loop {State : Type} (fuel : nat) (test : Z -> bool)
  (body : Z -> State -> State) (i : Z) (s : State) : State :=
  match fuel with
  | O => s
  | S fuel' =>
      if test i then for_loop fuel' test body (i + 1)%Z (body i s) else s
  end.

(** Lines 207-215.  The state is [markers]/[markerId] and [captureTimes]. *)
Definition captureLoop (c : config) (browserTime : number)
  (b : builder) : builder * list number :=
  let N := framesToCapture c in
  for_loop (S (Z.to_nat (Qfloor N)))
    (fun i => leb (of_Z i) N)
    (fun i s =>
       (addMarker (fst s)
          (delayMs c + browserTime + frameNumToTime c i N) Capture (Some i),
        snd s ++ [delayMs c + frameNumToTime c i N]))
    1%Z (b, []).

Definition addAnimationGapThreshold : number := lit 100.
Definition addAnimationFrameTime : number := lit 20.

(** Lines 219-226. *)
Definition earlyAnimationFrame (captureTimes : list number)
  (b : builder) : builder :=
  match captureTimes with
  | t0 :: _ =>
      if ltb addAnimationGapThreshold t0
      then addMarker b addAnimationFrameTime OnlyAnimate None
      else b
  | [] => b
  end.

(** Lines 231-243: the body of [captureTimes.forEach]; the state is the
    builder and [lastMarkerTime]. *)
Definition subdivideStep (maximumAnimationFrameDuration : option number)
  (s : builder * number) (time : number) : builder * number :=
  let lastMarkerTime := snd s in
  let b :=
    match truthy maximumAnimationFrameDuration with
    | Some maxDuration =>
        let frameDuration := time - lastMarkerTime in
        let framesForDuration := ceil (frameDuration / maxDuration) in
        for_loop (Z.to_nat framesForDuration)
          (fun i => (i <? framesForDuration)%Z)
          (fun i b =>
             addMarker b
               (lastMarkerTime
                + (of_Z i * frameDuration) / of_Z framesForDuration)
               OnlyAnimate None)
          1%Z (fst s)
    | None => fst s
    end in
  (b, time).

(** Lines 228-244. *)
Definition subdivide (c : config) (captureTimes : list number)
  (b : builder) : builder :=
  fst (fold_left (subdivideStep (cfg_maximumAnimationFrameDuration c))
         captureTimes (b, 0)).

(** Lines 207-244: the markers in creation order, before the sort. *)
Definition buildMarkers (c : config) (browserTime : number) : list marker :=
  let s := captureLoop c browserTime new_builder in
  let captureTimes := snd s in
  markers (subdivide c captureTimes (earlyAnimationFrame captureTimes (fst s))).

Definition captureTimes (c : config) : list number :=
  snd (captureLoop c 0 new_builder).

(** Lines 246-251: the comparison function given to [sort]. *)
Definition compareMarkers (a b : marker) : number :=
  if negb (eqb (time a) (time b)) then time a - time b
  else of_Z (id a - id b).

(** [Array.prototype.sort] is the engine's: a stable sort by the comparison
    function.  It is modelled by the stable insertion sort. *)
Fixpoint insertMarker (x : marker) (l : list marker) : list marker :=
  match l with
  | [] => [x]
  | y :: l' =>
      if leb (compareMarkers x y) 0 then x :: y :: l'
      else y :: insertMarker x l'
  end.

Definition sortMarkers (l : list marker) : list marker :=
  fold_right insertMarker [] l.

(** The capture timeline executed by the marker loop. *)
Definition timeline (c : config) (browserTime : number) : list marker :=
  sortMarkers (buildMarkers c browserTime).

(** ** The run: calls, errors and the trace *)

Definition error : Set := string.

Inductive capture_mode := Screenshot | Canvas | ImmediateCanvas.

Inductive message :=
| MsgCaptureMode (m : capture_mode)
| MsgGoingTo
| MsgPageLoaded
| MsgPreparingPage
| MsgPagePrepared
| MsgPreparingForScreenshot
| MsgElapsedCaptureTime
| MsgError (e : error).

Inductive event :=
| GetBrowser
| NewPage
| SetViewport
| OverwriteRandom
| OverwriteTime
| InitializePageUtils
| InitializeMediaTimeHandler
| Goto
| PreparePage
| StartWait (ms : number)
| BeforeCapture
| QuerySelector (selector : string)
| GoToTimeAndAnimate (t : number)
| GoToTimeAndAnimateForCapture (t : number)
| PreparePageForScreenshot (frameCount : Z) (total : number)
| CaptureFrame (frameCount : Z) (total : number)
| AfterCapture
| BrowserClose
| Log (toStdErr : bool) (m : message).

(** The capturer comes from [lib/], chosen by [canvasCaptureMode]; each of
    its three hooks may be missing.  The capturers are taken not to call
    [config.addMarker]. *)
Record capturer := {
  beforeCapture : bool;
  capture : bool;
  afterCapture : bool
}.

(** The browser and the page: [rejects n] is the error, if any, with which
    the call recorded at position [n] of the trace rejects;
    [selectorExists k] is whether the [k]-th [page.$] query (from 0) finds
    the element. *)
Record host := {
  rejects : nat -> option error;
  selectorExists : nat -> bool
}.

Inductive outcome (A : Type) :=
| Returned (a : A)
| Thrown (e : error)
| Pending.                    (* the loop is still running when fuel ends *)

Arguments Returned {A} a.
Arguments Thrown {A} e.
Arguments Pending {A}.

Definition M (A : Type) : Type := host -> list event -> list event * outcome A.

Definition ret {A} (a : A) : M A := fun _ tr => (tr, Returned a).

Definition bind {A B} (m : M A) (k : A -> M B) : M B :=
  fun h tr =>
    match m h tr with
    | (tr', Returned a) => k a h tr'
    | (tr', Thrown e) => (tr', Thrown e)
    | (tr', Pending) => (tr', Pending)
    end.

Notation "x <- m ;; k" := (bind m (fun x => k))
  (at level 61, m at next level, right associativity).
Notation "m ;; k" := (bind m (fun _ => k))
  (at level 61, right associativity).

Definition throw {A} (e : error) : M A := fun _ tr => (tr, Thrown e).
Definition pending {A} : M A := fun _ tr => (tr, Pending).

Definition is_query (e : event) : bool :=
  match e with QuerySelector _ => true | _ => false end.

(** How many [page.$] queries a trace holds. *)
Definition queries (tr : list event) : nat := List.length (filter is_query tr).

(** An awaited call. *)
Definition call (e : event) : M unit :=
  fun h tr =>
    match rejects h (List.length tr) with
    | Some err => (tr ++ [e], Thrown err)
    | None => (tr ++ [e], Returned tt)
    end.

(** [await page.$(selector)], as a boolean. *)
Definition querySelector (selector : string) : M bool :=
  fun h tr =>
    match rejects h (List.length tr) with
    | Some err => (tr ++ [QuerySelector selector], Thrown err)
    | None => (tr ++ [QuerySelector selector],
               Returned (selectorExists h (queries tr)))
    end.

(** Lines 89-99. *)
Definition log (c : config) (m : message) : M unit :=
  fun _ tr =>
    (if cfg_quiet c then tr else tr ++ [Log (cfg_logToStdErr c) m],
     Returned tt).

Definition when (b : bool) (m : M unit) : M unit := if b then m else ret tt.

(** Lines 143-166: which capturer is asked for. *)
Definition captureMode (c : config) : capture_mode :=
  match truthy_string (cfg_canvasCaptureMode c) with
  | Some s => if String.prefix "immediate"%string s then ImmediateCanvas else Canvas
  | None => Screenshot
  end.

(** Lines 201-204: the [while] loop. *)
Fixpoint primingLoop (fuel : nat) (c : config) (selector : string)
  (browserTime : number) : M number :=
  match fuel with
  | O => pending
  | S fuel' =>
      found <- querySelector selector ;;
      if negb found then
        let browserTime := browserTime + frameDuration c in
        call (GoToTimeAndAnimate browserTime) ;;
        primingLoop fuel' c selector browserTime
      else ret browserTime
  end.

(** Lines 195-205: returns [browserTime]. *)
Definition priming (fuel : nat) (c : config) : M number :=
  match truthy_string (cfg_captureWhileSelectorExists c) with
  | Some selector =>
      found <- querySelector selector ;;
      if negb found then primingLoop fuel c selector 0 else ret 0
  | None => ret 0
  end.

(** [marker.data.frameCount] *)
Definition frameCountOf (m : marker) : M Z :=
  match data m with
  | Some frameCount => ret frameCount
  | None => throw "TypeError"%string
  end.

(** Lines 254-288. *)
Fixpoint runMarkers (c : config) (cap : capturer) (ms : list marker)
  : M unit :=
  match ms with
  | [] => ret tt
  | m :: rest =>
      match type m with
      | Capture =>
          call (GoToTimeAndAnimateForCapture (time m)) ;;
          stop <- match truthy_string (cfg_captureWhileSelectorExists c) with
                  | Some selector =>
                      found <- querySelector selector ;; ret (negb found)
                  | None => ret false
                  end ;;
          if stop : bool then ret tt
          else
            when (cfg_preparePageForScreenshot c)
              (log c MsgPreparingForScreenshot ;;
               frameCount <- frameCountOf m ;;
               call (PreparePageForScreenshot frameCount (framesToCapture c)) ;;
               log c MsgPagePrepared) ;;
            when (capture cap)
              (frameCount <- frameCountOf m ;;
               call (CaptureFrame frameCount (framesToCapture c))) ;;
            runMarkers c cap rest
      | OnlyAnimate =>
          call (GoToTimeAndAnimate (time m)) ;;
          runMarkers c cap rest
      end
  end.

(** Lines 125-193: everything before the priming loop. *)
Definition initialize (c : config) (cap : capturer) : M unit :=
  call GetBrowser ;;
  call NewPage ;;
  log c (MsgCaptureMode (captureMode c)) ;;
  when (cfg_viewport c) (call SetViewport) ;;
  call OverwriteRandom ;;
  call OverwriteTime ;;
  call InitializePageUtils ;;
  call InitializeMediaTimeHandler ;;
  log c MsgGoingTo ;;
  call Goto ;;
  log c MsgPageLoaded ;;
  when (cfg_preparePage c)
    (log c MsgPreparingPage ;; call PreparePage ;; log c MsgPagePrepared) ;;
  (fun _ tr => (tr ++ [StartWait (startWaitMs c)], Returned tt)) ;;
  when (beforeCapture cap) (call BeforeCapture).

(** Lines 195-294, after [initialize]. *)
Definition captureRun (fuel : nat) (c : config) (cap : capturer) : M unit :=
  browserTime <- priming fuel c ;;
  runMarkers c cap (timeline c browserTime) ;;
  log c MsgElapsedCaptureTime ;;
  when (afterCapture cap) (call AfterCapture) ;;
  call BrowserClose.

(** Lines 124-294: the body of [try]. *)
Definition tryBody (fuel : nat) (c : config) (cap : capturer) : M unit :=
  initialize c cap ;; captureRun fuel c cap.

(** Lines 124-297: [try { ... } catch (err) { log(err) }]. *)
Definition catchLog (c : config) (body : M unit) : M unit :=
  fun h tr =>
    match body h tr with
    | (tr', Thrown err) => log c (MsgError err) h tr'
    | r => r
    end.

(** The exported function: the trace of a run and how the promise ends. *)
Definition timesnap (fuel : nat) (c : config) (cap : capturer) (h : host)
  : list event * outcome unit :=
  catchLog c (tryBody fuel c cap) h [].

(** ** What the builder is expected to produce

    The definitions below follow the description of the timeline, not the
    code; the theorems compare them with [buildMarkers]. *)

(** [1; 2; ...; n] *)
Definition range (n : nat) : list Z := map Z.of_nat (seq 1 n).

(** The number of iterations of the capture loop. *)
Definition frameCount (c : config) : nat :=
  Z.to_nat (Qfloor (framesToCapture c)).

(** The [i]-th capture marker of a timeline built at [browserTime]. *)
Definition captureMarker (c : config) (browserTime : number) (i : Z) : marker :=
  {| time := delayMs c + browserTime + frameNumToTime c i (framesToCapture c);
     type := Capture;
     data := Some i;
     id := (i - 1)%Z |}.

Definition captureTime (c : config) (i : Z) : number :=
  delayMs c + frameNumToTime c i (framesToCapture c).

(** The interior boundaries of the gap from [prev] to [next] cut into
    [ceil ((next - prev) / maxDuration)] equal steps. *)
Definition between (maxDuration prev next : number) : list number :=
  let n := ceil ((next - prev) / maxDuration) in
  map (fun i => prev + (of_Z i * (next - prev)) / of_Z n)
      (range (Z.to_nat (n - 1))).

(** The boundaries for every capture time in turn, from [last]. *)
Fixpoint subdivisionTimes (maxDuration : option number) (last : number)
  (times : list number) : list number :=
  match times with
  | [] => []
  | t :: times' =>
      match truthy maxDuration with
      | Some d => between d last t
      | None => []
      end ++ subdivisionTimes maxDuration t times'
  end.

(** The time of the extra early frame, if there is one. *)
Definition earlyTimes (times : list number) : list number :=
  match times with
  | t0 :: _ => if ltb addAnimationGapThreshold t0
               then [addAnimationFrameTime] else []
  | [] => []
  end.

(** Animate-only markers at the given times, with ids from [k]. *)
Fixpoint animateMarkers (k : Z) (times : list number) : list marker :=
  match times with
  | [] => []
  | t :: times' =>
      {| time := t; type := OnlyAnimate; data := None; id := k |}
      :: animateMarkers (k + 1) times'
  end.

Definition is_capture (m : marker) : bool :=
  match type m with Capture => true | OnlyAnimate => false end.

Definition is_animate (m : marker) : bool := negb (is_capture m).

(** The order of the sort: by time, then by id. *)
Definition marker_lt (a b : marker) : Prop :=
  time a < time b \/ (time a = time b /\ (id a < id b)%Z).

(** The same order with ties allowed: what [compareMarkers a b <= 0] says. *)
Definition marker_le (a b : marker) : Prop :=
  time a < time b \/ (time a = time b /\ (id a <= id b)%Z).

(** ** What the marker loop is expected to do *)

(** The clock advance that a marker asks for. *)
Definition advanceEvent (m : marker) : event :=
  match type m with
  | Capture => GoToTimeAndAnimateForCapture (time m)
  | OnlyAnimate => GoToTimeAndAnimate (time m)
  end.

Definition is_advance (e : event) : bool :=
  match e with
  | GoToTimeAndAnimate _ | GoToTimeAndAnimateForCapture _ => true
  | _ => false
  end.

(** The targets of the clock advances of a trace, in order. *)
Fixpoint advanceTargets (tr : list event) : list number :=
  match tr with
  | [] => []
  | GoToTimeAndAnimate t :: tr' => t :: advanceTargets tr'
  | GoToTimeAndAnimateForCapture t :: tr' => t :: advanceTargets tr'
  | _ :: tr' => advanceTargets tr'
  end.

(** The frames captured by a trace, in order. *)
Fixpoint capturedFrames (tr : list event) : list Z :=
  match tr with
  | [] => []
  | CaptureFrame i _ :: tr' => i :: capturedFrames tr'
  | _ :: tr' => capturedFrames tr'
  end.

(** What [log] appends to the trace. *)
Definition logged (c : config) (m : message) : list event :=
  if cfg_quiet c then [] else [Log (cfg_logToStdErr c) m].

(** The calls of one marker whose capture goes ahead, with the selector
    [sel] configured or not. *)
Definition markerEvents (c : config) (cap : capturer) (sel : option string)
  (m : marker) : list event :=
  match type m with
  | OnlyAnimate => [GoToTimeAndAnimate (time m)]
  | Capture =>
      [GoToTimeAndAnimateForCapture (time m)]
      ++ match sel with Some s => [QuerySelector s] | None => [] end
      ++ (if cfg_preparePageForScreenshot c
          then logged c MsgPreparingForScreenshot
               ++ match data m with
                  | Some i => [PreparePageForScreenshot i (framesToCapture c)]
                  | None => []
                  end
               ++ logged c MsgPagePrepared
          else [])
      ++ (if capture cap
          then match data m with
               | Some i => [CaptureFrame i (framesToCapture c)]
               | None => []
               end
          else [])
  end.

(** The events awaited by the browser or by a hook: all but the log and
    the timer. *)
Definition is_call (e : event) : bool :=
  match e with
  | Log _ _ | StartWait _ => false
  | _ => true
  end.

(** The queries and advances of a priming loop that makes [k] steps of
    [step] from [t] and then finds the element. *)
Fixpoint primingSteps (k : nat) (selector : string) (step t : number)
  : list event :=
  match k with
  | O => [QuerySelector selector]
  | S k' =>
      QuerySelector selector :: GoToTimeAndAnimate (t + step)
      :: primingSteps k' selector step (t + step)
  end.

(** The events of [initialize] when no call is rejected. *)
Definition initializeEvents (c : config) (cap : capturer) : list event :=
  [GetBrowser; NewPage]
  ++ logged c (MsgCaptureMode (captureMode c))
  ++ (if cfg_viewport c then [SetViewport] else [])
  ++ [OverwriteRandom; OverwriteTime; InitializePageUtils;
      InitializeMediaTimeHandler]
  ++ logged c MsgGoingTo
  ++ [Goto]
  ++ logged c MsgPageLoaded
  ++ (if cfg_preparePage c
      then logged c MsgPreparingPage ++ [PreparePage]
           ++ logged c MsgPagePrepared
      else [])
  ++ [StartWait (startWaitMs c)]
  ++ (if beforeCapture cap then [BeforeCapture] else []).

(** The virtual time at which the priming of a run ends, and the markers
    that the run then builds. *)
Definition primedTime (fuel : nat) (c : config) (cap : capturer) (h : host)
  : option number :=
  match (initialize c cap ;; priming fuel c) h [] with
  | (_, Returned browserTime) => Some browserTime
  | _ => None
  end.

Definition markersOfRun (fuel : nat) (c : config) (cap : capturer) (h : host)
  : option (list marker) :=
  option_map (timeline c) (primedTime fuel c cap h).

(** ** Configurations and hosts used as examples *)

Definition timing (frames duration fps start maxDuration : option number)
  (selector : option string) : config := {|
  cfg_frames := frames;
  cfg_duration := duration;
  cfg_fps := fps;
  cfg_frameNumToTime := None;
  cfg_start := start;
  cfg_startDelay := None;
  cfg_maximumAnimationFrameDuration := maxDuration;
  cfg_captureWhileSelectorExists := selector;
  cfg_canvasCaptureMode := None;
  cfg_viewport := false;
  cfg_preparePage := false;
  cfg_preparePageForScreenshot := false;
  cfg_quiet := true;
  cfg_logToStdErr := false
|}.

(** [frames=3, fps=10, start=0] *)
Definition scenarioA : config :=
  timing (Some (lit 3)) None (Some (lit 10)) (Some 0) None None.

(** [duration=2, fps=1, maximumAnimationFrameDuration=500] *)
Definition scenarioB : config :=
  timing None (Some (lit 2)) (Some (lit 1)) None (Some (lit 500)) None.

(** [frames=10, fps=10, captureWhileSelectorExists='#busy'] *)
Definition scenarioC : config :=
  timing (Some (lit 10)) None (Some (lit 10)) None None (Some "#busy"%string).

(** [frames=2, fps=10, start=1, captureWhileSelectorExists='#busy'] *)
Definition delayedStart : config :=
  timing (Some (lit 2)) None (Some (lit 10)) (Some 1) None
    (Some "#busy"%string).

(** [frames=2, fps=1, start=1, maximumAnimationFrameDuration=500] *)
Definition delayedSubdivided : config :=
  timing (Some (lit 2)) None (Some (lit 1)) (Some 1) (Some (lit 500)) None.

(** A capturer with a [capture] hook only. *)
Definition frameCapturer : capturer :=
  {| beforeCapture := false; capture := true; afterCapture := false |}.

(** A capturer with the three hooks. *)
Definition fullCapturer : capturer :=
  {| beforeCapture := true; capture := true; afterCapture := true |}.

(** No call rejects; query [k] finds the element when [present k]. *)
Definition answering (present : nat -> bool) : host :=
  {| rejects := fun _ => None; selectorExists := present |}.

(** The element is there for the queries 0 to 5 and gone from query 6. *)
Definition goneAtSixth : host := answering (fun k => Nat.leb k 5).

(** The element is missing for the queries 0 and 1 and there from query 2. *)
Definition appearsAtThird : host := answering (fun k => Nat.leb 2 k).

(** The element is always there. *)
Definition alwaysPresent : host := answering (fun _ => true).

(** The element never shows up. *)
Definition neverPresent : host := answering (fun _ => false).

(** The call at position [n] of the trace rejects with [e]. *)
Definition rejectingAt (n : nat) (e : error) : host :=
  {| rejects := fun k => if Nat.eqb k n then Some e else None;
     selectorExists := fun _ => true |}.

(** The same configuration with the log switched on. *)
Definition withLog (c : config) : config := {|
  cfg_frames := cfg_frames c;
  cfg_duration := cfg_duration c;
  cfg_fps := cfg_fps c;
  cfg_frameNumToTime := cfg_frameNumToTime c;
  cfg_start := cfg_start c;
  cfg_startDelay := cfg_startDelay c;
  cfg_maximumAnimationFrameDuration := cfg_maximumAnimationFrameDuration c;
  cfg_captureWhileSelectorExists := cfg_captureWhileSelectorExists c;
  cfg_canvasCaptureMode := cfg_canvasCaptureMode c;
  cfg_viewport := cfg_viewport c;
  cfg_preparePage := cfg_preparePage c;
  cfg_preparePageForScreenshot := cfg_preparePageForScreenshot c;
  cfg_quiet := false;
  cfg_logToStdErr := cfg_logToStdErr c
|}.

(** ** Properties of hosts and of computations *)

Definition neverRejects (h : host) : Prop := forall n, rejects h n = None.

(** How many capture markers a list holds. *)
Definition captures (ms : list marker) : nat :=
  List.length (filter is_capture ms).

(** Every capture marker carries its frame number. *)
Definition framed (ms : list marker) : Prop :=
  Forall (fun m => type m = Capture -> exists i, data m = Some i) ms.

(** Among the events [new] recorded from position [base] on, a call that
    the host rejects is the last one, and its error is what the computation
    throws. *)
Definition rejectedLast {A} (h : host) (base : nat) (new : list event)
  (out : outcome A) : Prop :=
  forall k ev e,
    nth_error new k = Some ev -> is_call ev = true ->
    rejects h (base + k) = Some e ->
    out = Thrown e /\ S k = List.length new.

(** A computation only appends to the trace, and stops at the first
    rejected call with the error of that call. *)
Definition faithful {A} (m : M A) : Prop :=
  forall h tr, exists new,
    fst (m h tr) = tr ++ new
    /\ rejectedLast h (List.length tr) new (snd (m h tr)).

(** An option of the configuration is given when it is defined and not
    zero, and unset when it is undefined or zero. *)
Definition given (x : option number) (v : number) : Prop :=
  x = Some v /\ v <> 0.

Definition unset (x : option number) : Prop :=
  x = None \/ x = Some 0.

(** ** Further parts of [index.js] and vocabulary for their properties *)

(** Lines 48 and 56-59: the address given to [page.goto].  [pathResolve]
    stands for [path.resolve(process.cwd(), _)] of Node. *)
Definition hasScheme (url : string) : bool :=
  match String.index 0 "://"%string url with
  | Some _ => true
  | None => false
  end.

Definition resolveUrl (pathResolve : string -> string) (url : option string)
  : string :=
  let url :=
    match truthy_string url with
    | Some u => u
    | None => "index.html"%string
    end in
  if negb (hasScheme url) then ("file://" ++ pathResolve url)%string else url.

(** What is left of [s] after the prefix [p], if [s] starts with [p]. *)
Fixpoint dropPrefix (p s : string) : option string :=
  match p with
  | EmptyString => Some s
  | String a p' =>
      match s with
      | String b s' => if Ascii.eqb a b then dropPrefix p' s' else None
      | EmptyString => None
      end
  end.

(** Lines 149-152: [mode.replace(/^immediate:?/, '')]. *)
Definition stripImmediate (mode : string) : string :=
  match dropPrefix "immediate" mode with
  | Some rest =>
      match dropPrefix ":" rest with
      | Some rest' => rest'
      | None => rest
      end
  | None => mode
  end.

(** Lines 143-166: the value of [config.canvasCaptureMode] that the
    capturer is built with. *)
Definition canvasCaptureModeForCapturer (c : config) : option string :=
  match truthy_string (cfg_canvasCaptureMode c) with
  | Some s =>
      if String.prefix "immediate" s then Some (stripImmediate s) else Some s
  | None => cfg_canvasCaptureMode c
  end.


(** The frame numbers of the capture markers of a list, in its order. *)
Definition framesOf (ms : list marker) : list Z :=
  flat_map (fun m =>
              match type m, data m with
              | Capture, Some i => [i]
              | _, _ => []
              end) ms.

(** A computation appends only events that satisfy [P]. *)
Definition emitsOnly {A} (P : event -> bool) (m : M A) : Prop :=
  forall h tr, exists new,
    fst (m h tr) = tr ++ new /\ forallb P new = true.

Definition not_log (e : event) : bool :=
  match e with Log _ _ => false | _ => true end.

(** A log line goes to the stream [toStdErr]. *)
Definition logs_to (toStdErr : bool) (e : event) : bool :=
  match e with Log b _ => Bool.eqb b toStdErr | _ => true end.

Definition not_query (e : event) : bool := negb (is_query e).

Definition not_close (e : event) : bool :=
  match e with BrowserClose => false | _ => true end.

Definition not_advance (e : event) : bool := negb (is_advance e).

(** Not a call of the [capture] hook of the capturer. *)
Definition not_frame_call (e : event) : bool :=
  match e with
  | CaptureFrame _ _ => false
  | _ => true
  end.

(** The end of a run in which nothing went wrong. *)
Definition closingEvents (c : config) (cap : capturer) : list event :=
  logged c MsgElapsedCaptureTime
  ++ (if afterCapture cap then [AfterCapture] else [])
  ++ [BrowserClose].

(** Every query of the host finds the element. *)
Definition alwaysFinds (h : host) : Prop := forall k, selectorExists h k = true.

(** [l1] is an initial part of [l2]. *)
Definition prefixOf {A} (l1 l2 : list A) : Prop := exists k, l1 = firstn k l2.

(** A mapping whose times do not go back as the frame number grows, over
    the frames 1 to [n]. *)
Definition ascending (f : Z -> number) (n : nat) : Prop :=
  forall i j, (1 <= i)%Z -> (i <= j)%Z -> (j <= Z.of_nat n)%Z -> f i <= f j.

(** The events that [initialize] may record with the configuration [c] and
    the capturer [cap]: the fixed calls, the optional ones when they are
    configured, log lines on the configured stream unless [quiet]. *)
Definition initEvent (c : config) (cap : capturer) (e : event) : bool :=
  match e with
  | GetBrowser | NewPage | OverwriteRandom | OverwriteTime
  | InitializePageUtils | InitializeMediaTimeHandler | Goto => true
  | SetViewport => cfg_viewport c
  | PreparePage => cfg_preparePage c
  | StartWait ms => eqb ms (startWaitMs c)
  | BeforeCapture => beforeCapture cap
  | Log toStdErr _ =>
      negb (cfg_quiet c) && Bool.eqb toStdErr (cfg_logToStdErr c)
  | _ => false
  end.

(** The events that priming and the marker loop may record. *)
Definition loopEvent (c : config) (cap : capturer) (e : event) : bool :=
  match e with
  | QuerySelector s =>
      match truthy_string (cfg_captureWhileSelectorExists c) with
      | Some s' => String.eqb s s'
      | None => false
      end
  | GoToTimeAndAnimate _ | GoToTimeAndAnimateForCapture _ => true
  | PreparePageForScreenshot _ total =>
      cfg_preparePageForScreenshot c && eqb total (framesToCapture c)
  | CaptureFrame _ total => capture cap && eqb total (framesToCapture c)
  | Log toStdErr _ =>
      negb (cfg_quiet c) && Bool.eqb toStdErr (cfg_logToStdErr c)
  | _ => false
  end.

(** The events that a whole run may record. *)
Definition mayEmit (c : config) (cap : capturer) (e : event) : bool :=
  initEvent c cap e || loopEvent c cap e
  || match e with
     | AfterCapture => afterCapture cap
     | BrowserClose => true
     | _ => false
     end.

(** [frames=1/2]: a frame count below 1. *)
Definition halfFrame : config :=
  timing (Some (lit (1 # 2))) None None None None None.

(** [duration=2.5, fps=1]: a frame count that is no whole number. *)
Definition brokenCount : config :=
  timing None (Some (lit (5 # 2))) (Some (lit 1)) None None None.

(** A computation records [BrowserClose] at most once, as its last event. *)
Definition endsWithClose {A} (m : M A) : Prop :=
  forall h tr, exists new,
    fst (m h tr) = tr ++ new
    /\ (forallb not_close new = true
        \/ exists body,
             new = body ++ [BrowserClose]
             /\ forallb not_close body = true).

(** No awaited call: a log line or the timer. *)
Definition not_call (e : event) : bool := negb (is_call e).

(** [canvasCaptureMode='immediate:png'] *)
Definition immediatePng : config := {|
  cfg_frames := None;
  cfg_duration := None;
  cfg_fps := None;
  cfg_frameNumToTime := None;
  cfg_start := None;
  cfg_startDelay := None;
  cfg_maximumAnimationFrameDuration := None;
  cfg_captureWhileSelectorExists := None;
  cfg_canvasCaptureMode := Some "immediate:png"%string;
  cfg_viewport := false;
  cfg_preparePage := false;
  cfg_preparePageForScreenshot := false;
  cfg_quiet := false;
  cfg_logToStdErr := false
|}.
(** * Facts about numbers *)

Module NumFacts.

Lemma this_lit q : (this (lit q) == q)%Q.
Proof. apply Qred_correct. Qed.

Lemma this_of_Z z : (this (of_Z z) == inject_Z z)%Q.
Proof. apply Qred_correct. Qed.

Lemma this_Q2Qc q : (this (Q2Qc q) == q)%Q.
Proof. apply Qred_correct. Qed.

Lemma this_plus a b : (this (a + b) == this a + this b)%Q.
Proof. unfold Qcplus, Q2Qc. cbn [this]. apply Qred_correct. Qed.

Lemma this_minus a b : (this (a - b) == this a - this b)%Q.
Proof.
  unfold Qcminus, Qcplus, Qcopp, Q2Qc. cbn [this].
  rewrite !Qred_correct. reflexivity.
Qed.

Lemma this_mult a b : (this (a * b) == this a * this b)%Q.
Proof. unfold Qcmult, Q2Qc. cbn [this]. apply Qred_correct. Qed.

Lemma this_div a b : (this (a / b) == this a / this b)%Q.
Proof.
  unfold Qcdiv, Qcmult, Qcinv, Q2Qc. cbn [this].
  rewrite !Qred_correct. reflexivity.
Qed.

Lemma this_eq (x y : number) : x = y -> (this x == this y)%Q.
Proof. now intros ->. Qed.

Lemma eqb_eq x y : eqb x y = true <-> x = y.
Proof.
  unfold eqb. split.
  - apply Qc_eq_bool_correct.
  - intros ->. unfold Qc_eq_bool. destruct (Qc_eq_dec y y); congruence.
Qed.

Lemma eqb_neq x y : eqb x y = false <-> x <> y.
Proof.
  rewrite <- eqb_eq. destruct (eqb x y); split; congruence.
Qed.

Lemma ltb_lt x y : ltb x y = true <-> x < y.
Proof.
  unfold ltb. rewrite Qclt_alt. destruct (x ?= y); split; congruence.
Qed.

Lemma ltb_ge x y : ltb x y = false <-> y <= x.
Proof.
  rewrite <- not_true_iff_false, ltb_lt. split.
  - apply Qcnot_lt_le.
  - apply Qcle_not_lt.
Qed.

Lemma leb_le x y : leb x y = true <-> x <= y.
Proof.
  unfold leb. rewrite Qcle_alt. destruct (x ?= y); split; congruence.
Qed.

Lemma leb_gt x y : leb x y = false <-> y < x.
Proof.
  rewrite <- not_true_iff_false, leb_le. split.
  - apply Qcnot_le_lt.
  - apply Qclt_not_le.
Qed.

Lemma of_Z_le a b : of_Z a <= of_Z b <-> (a <= b)%Z.
Proof. unfold Qcle. rewrite !this_of_Z, <- Zle_Qle. reflexivity. Qed.

Lemma of_Z_lt a b : of_Z a < of_Z b <-> (a < b)%Z.
Proof. unfold Qclt. rewrite !this_of_Z, <- Zlt_Qlt. reflexivity. Qed.

Lemma of_Z_0 : of_Z 0 = 0.
Proof. apply Qc_is_canon. reflexivity. Qed.

Lemma of_Z_1 : of_Z 1 = 1.
Proof. apply Qc_is_canon. reflexivity. Qed.

Lemma of_Z_plus a b : of_Z (a + b) = of_Z a + of_Z b.
Proof.
  apply Qc_is_canon.
  rewrite this_plus, !this_of_Z. now rewrite inject_Z_plus.
Qed.

Lemma of_Z_inj a b : of_Z a = of_Z b -> a = b.
Proof.
  intros H. apply Z.le_antisymm; apply of_Z_le; rewrite H; apply Qcle_refl.
Qed.

(** An integer is below a number exactly when it is below its floor. *)
Lemma of_Z_le_floor i (x : number) : of_Z i <= x <-> (i <= Qfloor x)%Z.
Proof.
  unfold Qcle. rewrite this_of_Z. split; intros H.
  - apply Qfloor_resp_le in H. now rewrite Qfloor_Z in H.
  - apply Qle_trans with (inject_Z (Qfloor x)).
    + now rewrite <- Zle_Qle.
    + apply Qfloor_le.
Qed.

(** [ceil x] is the least integer that is not below [x]. *)
Lemma ceil_le_iff (x : number) z : (ceil x <= z)%Z <-> x <= of_Z z.
Proof.
  unfold ceil, Qcle. rewrite this_of_Z. split; intros H.
  - apply Qle_trans with (inject_Z (Qceiling x)).
    + apply Qle_ceiling.
    + now rewrite <- Zle_Qle.
  - apply Qceiling_resp_le in H. now rewrite Qceiling_Z in H.
Qed.

Lemma ceil_gt_iff (x : number) z : (z < ceil x)%Z <-> of_Z z < x.
Proof.
  split; intros H.
  - apply Qcnot_le_lt. intros H'. apply ceil_le_iff in H'. lia.
  - apply Z.nle_gt. intros H'. apply ceil_le_iff in H'.
    revert H. now apply Qcle_not_lt.
Qed.

End NumFacts.

Import NumFacts.

(** Moves an order or an equation between numbers to [Q], for [lra]. *)
Ltac to_Q :=
  unfold Qclt, Qcle in *;
  repeat match goal with
         | H : @eq Qc _ _ |- _ => apply this_eq in H
         | |- @eq Qc _ _ => apply Qc_is_canon
         end;
  repeat progress
    (rewrite ?this_plus, ?this_minus, ?this_mult, ?this_div, ?this_lit,
       ?this_of_Z, ?this_Q2Qc in * ).

(** * The loops of the builder *)

Section ForLoop.

Context {State : Type} (test : Z -> bool) (body : Z -> State -> State).

(** A loop whose test holds [n] times from [i] and then fails runs its
    body at [i], ..., [i + n - 1], whatever fuel is left over. *)
Lemma for_loop_exit (n extra : nat) :
  forall (i : Z) (s : State),
    (forall k, (0 <= k < Z.of_nat n)%Z -> test (i + k) = true) ->
    test (i + Z.of_nat n) = false ->
    for_loop (n + S extra) test body i s
    = fold_left (fun s j => body j s)
        (map (fun k => (i + Z.of_nat k)%Z) (seq 0 n)) s.
Proof.
  induction n as [|n IH]; intros i s Htrue Hfalse.
  - cbn. rewrite Z.add_0_r in Hfalse. now rewrite Hfalse.
  - cbn [Nat.add for_loop seq map fold_left].
    rewrite <- (Z.add_0_r i) at 1. rewrite Htrue by lia.
    rewrite Z.add_0_r.
    rewrite IH.
    + rewrite <- seq_shift, map_map. f_equal. apply map_ext. intros k. lia.
    + intros k Hk. replace (i + 1 + k)%Z with (i + (1 + k))%Z by lia.
      apply Htrue. lia.
    + replace (i + 1 + Z.of_nat n)%Z with (i + Z.of_nat (S n))%Z
        by lia.
      exact Hfalse.
Qed.

End ForLoop.

Lemma range_from_one n : map (fun k => (1 + Z.of_nat k)%Z) (seq 0 n) = range n.
Proof.
  unfold range. rewrite <- seq_shift, map_map. apply map_ext. intros k. lia.
Qed.

Lemma range_S n : range (S n) = range n ++ [Z.of_nat (S n)].
Proof. unfold range. now rewrite seq_S, map_app. Qed.

Lemma range_length n : List.length (range n) = n.
Proof. unfold range. now rewrite length_map, length_seq. Qed.

Lemma in_range n i : In i (range n) <-> (1 <= i <= Z.of_nat n)%Z.
Proof.
  unfold range. rewrite in_map_iff. split.
  - intros (k & <- & Hk). apply in_seq in Hk. lia.
  - intros Hi. exists (Z.to_nat i). split; [lia|]. apply in_seq. lia.
Qed.

Lemma nth_range n k : (k < n)%nat -> nth k (range n) 0%Z = Z.of_nat (k + 1).
Proof.
  intros Hk. unfold range.
  change 0%Z with (Z.of_nat 0). rewrite map_nth, seq_nth by assumption.
  f_equal. lia.
Qed.

(** * The builder against its description *)

Section Builder.

Variable c : config.

Lemma animateMarkers_app k l1 l2 :
  animateMarkers k (l1 ++ l2)
  = animateMarkers k l1 ++ animateMarkers (k + Z.of_nat (List.length l1)) l2.
Proof.
  revert k. induction l1 as [|t l1 IH]; intros k; cbn [animateMarkers app].
  - now rewrite Z.add_0_r.
  - rewrite IH. cbn [List.length]. do 3 f_equal. lia.
Qed.

Lemma animateMarkers_time k l : map time (animateMarkers k l) = l.
Proof.
  revert k. induction l as [|t l IH]; intros k; cbn; [|rewrite IH]; easy.
Qed.

Lemma animateMarkers_id k l :
  map id (animateMarkers k l)
  = map (fun j => (k + Z.of_nat j)%Z) (seq 0 (List.length l)).
Proof.
  revert k. induction l as [|t l IH]; intros k; [easy|].
  cbn [animateMarkers map List.length seq]. rewrite IH.
  rewrite <- seq_shift, map_map. cbn [id]. f_equal; [lia|].
  apply map_ext. intros j. lia.
Qed.

Lemma animateMarkers_length k l : List.length (animateMarkers k l) = List.length l.
Proof. rewrite <- (length_map time). now rewrite animateMarkers_time. Qed.

Lemma seq_offset len :
  forall a s,
    map (fun j => (Z.of_nat a + Z.of_nat j)%Z) (seq s len)
    = map Z.of_nat (seq (a + s) len).
Proof.
  induction len as [|len IH]; intros a s; [easy|].
  cbn [seq map]. rewrite IH, Nat.add_succ_r. f_equal. lia.
Qed.

Lemma animateMarkers_animate k l :
  Forall (fun m => type m = OnlyAnimate /\ data m = None)
    (animateMarkers k l).
Proof.
  revert k. induction l as [|t l IH]; intros k; constructor; auto.
Qed.

(** Adding animate-only markers one after the other. *)
Lemma addMarker_animate_fold (l : list number) :
  forall b,
    fold_left (fun b t => addMarker b t OnlyAnimate None) l b
    = {| markers := markers b ++ animateMarkers (markerId b) l;
         markerId := (markerId b + Z.of_nat (List.length l))%Z |}.
Proof.
  induction l as [|t l IH]; intros b.
  - cbn. rewrite app_nil_r, Z.add_0_r. now destruct b.
  - cbn [fold_left]. rewrite IH. cbn [addMarker markers markerId].
    rewrite <- app_assoc. cbn [app animateMarkers List.length].
    f_equal. lia.
Qed.

Lemma fold_left_map_arg {A B T} (f : T -> B -> T) (g : A -> B) l :
  forall s, fold_left (fun s x => f s (g x)) l s = fold_left f (map g l) s.
Proof. induction l; intros s; cbn; auto. Qed.

(** The capture loop: the test holds for 1, ..., [frameCount c] and fails
    after that, and the body adds [captureMarker]s. *)
Lemma captureLoop_test i :
  leb (of_Z i) (framesToCapture c) = true
  <-> (i <= Qfloor (framesToCapture c))%Z.
Proof. rewrite leb_le. apply of_Z_le_floor. Qed.

Lemma captureLoop_fold browserTime n :
  fold_left
    (fun s i =>
       (addMarker (fst s)
          (delayMs c + browserTime
           + frameNumToTime c i (framesToCapture c)) Capture (Some i),
        snd s ++ [delayMs c + frameNumToTime c i (framesToCapture c)]))
    (range n) (new_builder, [])
  = ({| markers := map (captureMarker c browserTime) (range n);
        markerId := Z.of_nat n |},
     map (captureTime c) (range n)).
Proof.
  induction n as [|n IH]; [reflexivity|].
  rewrite range_S, fold_left_app, IH. cbn [fold_left fst snd].
  rewrite !map_app. cbn [map]. unfold addMarker. cbn [markers markerId].
  unfold captureMarker at 3.
  replace (Z.of_nat (S n) - 1)%Z with (Z.of_nat n) by lia.
  replace (Z.of_nat n + 1)%Z with (Z.of_nat (S n)) by lia.
  reflexivity.
Qed.

Lemma captureLoop_eq browserTime :
  captureLoop c browserTime new_builder
  = ({| markers := map (captureMarker c browserTime) (range (frameCount c));
        markerId := Z.of_nat (frameCount c) |},
     map (captureTime c) (range (frameCount c))).
Proof.
  unfold captureLoop.
  change (S (Z.to_nat (Qfloor (framesToCapture c))))
    with (S (frameCount c)).
  replace (S (frameCount c)) with (frameCount c + 1)%nat by lia.
  rewrite for_loop_exit.
  - rewrite range_from_one. apply captureLoop_fold.
  - intros k Hk. apply captureLoop_test. unfold frameCount in Hk. lia.
  - apply not_true_iff_false. rewrite captureLoop_test.
    unfold frameCount. lia.
Qed.

Lemma captureTimes_eq :
  captureTimes c = map (captureTime c) (range (frameCount c)).
Proof. unfold captureTimes. now rewrite captureLoop_eq. Qed.

(** The inner loop of the subdivision adds the markers of [between]. *)
Lemma subdivideStep_eq b last t :
  subdivideStep (cfg_maximumAnimationFrameDuration c) (b, last) t
  = ({| markers :=
          markers b
          ++ animateMarkers (markerId b)
               (subdivisionTimes (cfg_maximumAnimationFrameDuration c)
                  last [t]);
        markerId :=
          (markerId b
           + Z.of_nat (List.length
               (subdivisionTimes (cfg_maximumAnimationFrameDuration c)
                  last [t])))%Z |},
     t).
Proof.
  unfold subdivideStep. cbn [subdivisionTimes fst snd]. rewrite app_nil_r.
  destruct (truthy (cfg_maximumAnimationFrameDuration c)) as [d|].
  - f_equal. unfold between.
    set (n := ceil ((t - last) / d)).
    destruct (Z_lt_le_dec 0 n) as [Hn|Hn].
    + replace (Z.to_nat n) with (Z.to_nat (n - 1) + 1)%nat by lia.
      rewrite for_loop_exit.
      * rewrite range_from_one.
        rewrite (fold_left_map_arg
                   (fun b t => addMarker b t OnlyAnimate None)).
        apply addMarker_animate_fold.
      * intros k Hk. apply Z.ltb_lt. lia.
      * apply Z.ltb_ge. lia.
    + replace (Z.to_nat n) with O by lia.
      replace (Z.to_nat (n - 1)) with O by lia.
      cbn. rewrite app_nil_r, Z.add_0_r. now destruct b.
  - cbn. rewrite app_nil_r, Z.add_0_r. now destruct b.
Qed.

Lemma subdivide_fold (times : list number) :
  forall b last,
    fst (fold_left (subdivideStep (cfg_maximumAnimationFrameDuration c))
           times (b, last))
    = {| markers :=
           markers b
           ++ animateMarkers (markerId b)
                (subdivisionTimes (cfg_maximumAnimationFrameDuration c)
                   last times);
         markerId :=
           (markerId b
            + Z.of_nat (List.length
                (subdivisionTimes (cfg_maximumAnimationFrameDuration c)
                   last times)))%Z |}.
Proof.
  induction times as [|t times IH]; intros b last.
  - cbn. rewrite app_nil_r, Z.add_0_r. now destruct b.
  - cbn [fold_left]. rewrite subdivideStep_eq, IH.
    cbn [markers markerId subdivisionTimes] in *. rewrite !app_nil_r.
    rewrite animateMarkers_app, length_app, <- app_assoc.
    f_equal. lia.
Qed.

Lemma earlyAnimationFrame_eq times b :
  earlyAnimationFrame times b
  = {| markers := markers b ++ animateMarkers (markerId b) (earlyTimes times);
       markerId :=
         (markerId b + Z.of_nat (List.length (earlyTimes times)))%Z |}.
Proof.
  unfold earlyAnimationFrame, earlyTimes.
  destruct times as [|t0 times];
    [|destruct (ltb addAnimationGapThreshold t0)];
    cbn; rewrite ?app_nil_r, ?Z.add_0_r; now destruct b.
Qed.

(** The marker list in creation order: the capture markers, the early
    frame, the subdivision; the ids count up from 0. *)
Lemma buildMarkers_eq browserTime :
  buildMarkers c browserTime
  = map (captureMarker c browserTime) (range (frameCount c))
    ++ animateMarkers (Z.of_nat (frameCount c))
         (earlyTimes (captureTimes c)
          ++ subdivisionTimes (cfg_maximumAnimationFrameDuration c) 0
               (captureTimes c)).
Proof.
  unfold buildMarkers, subdivide.
  rewrite captureLoop_eq, captureTimes_eq. cbn [fst snd].
  rewrite earlyAnimationFrame_eq, subdivide_fold. cbn [markers markerId].
  now rewrite animateMarkers_app, <- app_assoc.
Qed.

Lemma captureMarker_capture browserTime l :
  filter is_capture (map (captureMarker c browserTime) l)
  = map (captureMarker c browserTime) l.
Proof. induction l; cbn; congruence. Qed.

Lemma captureMarker_not_animate browserTime l :
  filter is_animate (map (captureMarker c browserTime) l) = [].
Proof. induction l; cbn; congruence. Qed.

Lemma animateMarkers_not_capture k l :
  filter is_capture (animateMarkers k l) = [].
Proof. revert k. induction l; intros k; cbn; auto. Qed.

Lemma animateMarkers_all_animate k l :
  filter is_animate (animateMarkers k l) = animateMarkers k l.
Proof. revert k. induction l; intros k; cbn; [|rewrite IHl]; auto. Qed.

(** The animate-only markers of the list. *)
Lemma buildMarkers_animate browserTime :
  filter is_animate (buildMarkers c browserTime)
  = animateMarkers (Z.of_nat (frameCount c))
      (earlyTimes (captureTimes c)
       ++ subdivisionTimes (cfg_maximumAnimationFrameDuration c) 0
            (captureTimes c)).
Proof.
  rewrite buildMarkers_eq, filter_app, captureMarker_not_animate.
  apply animateMarkers_all_animate.
Qed.

(** The ids are 0, 1, 2, ... in creation order. *)
Lemma buildMarkers_ids browserTime :
  map id (buildMarkers c browserTime)
  = map Z.of_nat (seq 0 (List.length (buildMarkers c browserTime))).
Proof.
  rewrite buildMarkers_eq, length_app, seq_app, !map_app.
  rewrite map_map, length_map, range_length. f_equal.
  - unfold range. rewrite <- seq_shift, !map_map. apply map_ext.
    intros k. unfold captureMarker. cbn [id]. lia.
  - rewrite animateMarkers_id, animateMarkers_length.
    etransitivity; [apply seq_offset|]. now rewrite Nat.add_0_r.
Qed.

End Builder.

(** * The subdivision of one gap *)

Section Between.

Variables (d prev next : number).

Lemma between_length :
  List.length (between d prev next)
  = Z.to_nat (ceil ((next - prev) / d) - 1).
Proof. unfold between. now rewrite length_map, range_length. Qed.

Lemma between_nth k :
  (k < Z.to_nat (ceil ((next - prev) / d)%Qc - 1))%nat ->
  nth k (between d prev next) 0
  = prev + (of_Z (Z.of_nat (k + 1)) * (next - prev))
           / of_Z (ceil ((next - prev) / d)).
Proof.
  intros Hk. unfold between.
  set (f := fun i => prev + _).
  rewrite (nth_indep _ 0 (f 0%Z)) by (now rewrite length_map, range_length).
  rewrite map_nth, nth_range by assumption. reflexivity.
Qed.

Hypothesis d_pos : 0 < d.
Hypothesis gap : d < next - prev.

(** A gap longer than the cap is cut into at least two steps. *)
Lemma between_steps : (2 <= ceil ((next - prev) / d)%Qc)%Z.
Proof.
  assert (H : (1 < ceil ((next - prev) / d)%Qc)%Z); [|lia].
  apply ceil_gt_iff. rewrite of_Z_1.
  to_Q. apply Qlt_shift_div_l; lra.
Qed.

Lemma between_nonempty :
  (1 <= Z.of_nat (List.length (between d prev next)))%Z.
Proof. rewrite between_length. pose proof between_steps. lia. Qed.

(** Every boundary lies strictly inside the gap. *)
Lemma between_inside :
  Forall (fun t => prev < t /\ t < next) (between d prev next).
Proof.
  pose proof between_steps as Hn.
  apply Forall_forall. intros t Ht. unfold between in Ht.
  apply in_map_iff in Ht. destruct Ht as (i & <- & Hi).
  apply in_range in Hi.
  set (n := ceil ((next - prev) / d)) in *.
  assert (Hi0 : of_Z 0 < of_Z i) by (apply of_Z_lt; lia).
  assert (Hin : of_Z i < of_Z n) by (apply of_Z_lt; lia).
  assert (Hn0 : of_Z 0 < of_Z n) by (apply of_Z_lt; lia).
  clearbody n. to_Q.
  set (I := inject_Z i) in *. set (N := inject_Z n) in *.
  set (D := (this next - this prev)%Q) in *.
  change (inject_Z 0) with 0%Q in *.
  assert (HD : (0 < D)%Q) by (change (this 0) with 0%Q in d_pos; lra).
  assert (Hlo : (0 < I * D / N)%Q).
  { apply Qlt_shift_div_l; [assumption|]. rewrite Qmult_0_l.
    now apply Qmult_lt_0_compat. }
  assert (Hhi : (I * D / N < D)%Q).
  { apply Qlt_shift_div_r; [assumption|]. rewrite (Qmult_comm D N).
    now apply Qmult_lt_compat_r. }
  set (X := (I * D / N)%Q) in *. clearbody X. unfold D in *.
  split; lra.
Qed.

End Between.

Lemma subdivisionTimes_app maxDuration l1 :
  forall last t l2,
    subdivisionTimes maxDuration last (l1 ++ t :: l2)
    = subdivisionTimes maxDuration last (l1 ++ [t])
      ++ subdivisionTimes maxDuration t l2.
Proof.
  induction l1 as [|a l1 IH]; intros last t l2; cbn [app subdivisionTimes].
  - now rewrite app_nil_r.
  - now rewrite IH, app_assoc.
Qed.

Lemma subdivisionTimes_none last times :
  subdivisionTimes None last times = [].
Proof. revert last. induction times; intros last; cbn; auto. Qed.

(** * The sort *)

Section Sort.

Lemma compareMarkers_le a b :
  leb (compareMarkers a b) 0 = true <-> marker_le a b.
Proof.
  rewrite leb_le. unfold compareMarkers, marker_le.
  destruct (eqb (time a) (time b)) eqn:E; cbn [negb].
  - apply eqb_eq in E. rewrite <- of_Z_0, of_Z_le. split.
    + intros H. right. split; [assumption|lia].
    + intros [H|[_ H]]; [|lia].
      rewrite E in H. now apply Qclt_not_eq in H.
  - apply eqb_neq in E. split.
    + intros H. left. destruct (Qcle_lt_or_eq (time a) (time b)).
      * to_Q. change (this 0) with 0%Q in H. lra.
      * assumption.
      * contradiction.
    + intros [H|[H _]]; [|contradiction].
      to_Q. change (this 0) with 0%Q. lra.
Qed.

Lemma compareMarkers_lt a b :
  compareMarkers a b < 0 <-> marker_lt a b.
Proof.
  unfold compareMarkers, marker_lt.
  destruct (eqb (time a) (time b)) eqn:E; cbn [negb].
  - apply eqb_eq in E. rewrite <- of_Z_0, of_Z_lt. split.
    + intros H. right. split; [assumption|lia].
    + intros [H|[_ H]]; [|lia].
      rewrite E in H. now apply Qclt_not_eq in H.
  - apply eqb_neq in E. split.
    + intros H. left. to_Q. change (this 0) with 0%Q in H. lra.
    + intros [H|[H _]]; [|contradiction].
      to_Q. change (this 0) with 0%Q. lra.
Qed.

Lemma compareMarkers_zero a b :
  compareMarkers a b = 0 <-> time a = time b /\ id a = id b.
Proof.
  unfold compareMarkers.
  destruct (eqb (time a) (time b)) eqn:E; cbn [negb].
  - apply eqb_eq in E. rewrite <- of_Z_0. split.
    + intros H. apply of_Z_inj in H. split; [assumption|lia].
    + intros [_ H]. f_equal. lia.
  - apply eqb_neq in E. split.
    + intros H. exfalso. apply E.
      to_Q. change (this 0) with 0%Q in H. lra.
    + intros [H _]. contradiction.
Qed.

Lemma compareMarkers_antisym a b :
  compareMarkers b a = - compareMarkers a b.
Proof.
  unfold compareMarkers.
  destruct (eqb (time a) (time b)) eqn:E.
  - apply eqb_eq in E. rewrite E.
    replace (eqb (time b) (time b)) with true
      by (symmetry; now apply eqb_eq).
    cbn [negb]. apply Qc_is_canon. unfold Qcopp.
    rewrite this_Q2Qc, !this_of_Z.
    replace (id b - id a)%Z with (- (id a - id b))%Z by lia.
    now rewrite inject_Z_opp.
  - apply eqb_neq in E.
    replace (eqb (time b) (time a)) with false
      by (symmetry; apply eqb_neq; congruence).
    cbn [negb]. ring.
Qed.

Lemma marker_lt_irrefl a : ~ marker_lt a a.
Proof.
  intros [H|[_ H]]; [|lia]. now apply Qclt_not_eq in H.
Qed.

Lemma marker_lt_trans a b c :
  marker_lt a b -> marker_lt b c -> marker_lt a c.
Proof.
  intros [H1|[H1 H1']] [H2|[H2 H2']].
  - left. now apply Qclt_trans with (time b).
  - left. now rewrite <- H2.
  - left. now rewrite H1.
  - right. split; [congruence|lia].
Qed.

Lemma marker_lt_total a b :
  id a <> id b -> marker_lt a b \/ marker_lt b a.
Proof.
  intros Hid. unfold marker_lt.
  destruct (Qc_dec (time a) (time b)) as [[H|H]|H]; auto.
  destruct (Z.lt_total (id a) (id b)) as [H'|[H'|H']]; auto; contradiction.
Qed.

Lemma marker_le_trans a b c :
  marker_le a b -> marker_le b c -> marker_le a c.
Proof.
  intros [H1|[H1 H1']] [H2|[H2 H2']].
  - left. now apply Qclt_trans with (time b).
  - left. now rewrite <- H2.
  - left. now rewrite H1.
  - right. split; [congruence|lia].
Qed.

Lemma marker_le_total a b : marker_le a b \/ marker_le b a.
Proof.
  unfold marker_le.
  destruct (Qc_dec (time a) (time b)) as [[H|H]|H]; auto.
  destruct (Z.le_ge_cases (id a) (id b)); auto.
Qed.

Lemma insertMarker_perm x l : Permutation (insertMarker x l) (x :: l).
Proof.
  induction l as [|y l IH]; cbn [insertMarker]; [reflexivity|].
  destruct (leb (compareMarkers x y) 0); [reflexivity|].
  rewrite IH. apply perm_swap.
Qed.

Lemma sortMarkers_perm l : Permutation (sortMarkers l) l.
Proof.
  induction l as [|x l IH]; cbn [sortMarkers fold_right]; [reflexivity|].
  rewrite insertMarker_perm. now constructor.
Qed.

Lemma insertMarker_sorted x l :
  StronglySorted marker_le l -> StronglySorted marker_le (insertMarker x l).
Proof.
  induction 1 as [|y l Hl IH Hy]; cbn [insertMarker].
  - repeat constructor.
  - destruct (leb (compareMarkers x y) 0) eqn:E.
    + apply compareMarkers_le in E. constructor.
      * now constructor.
      * constructor; [assumption|].
        eapply Forall_impl; [|exact Hy]. intros z. now apply marker_le_trans.
    + assert (Hyx : marker_le y x).
      { destruct (marker_le_total x y) as [H|H]; [|assumption].
        apply compareMarkers_le in H. congruence. }
      constructor; [assumption|].
      eapply Permutation_Forall.
      * symmetry. apply insertMarker_perm.
      * now constructor.
Qed.

Lemma sortMarkers_sorted l : StronglySorted marker_le (sortMarkers l).
Proof.
  induction l as [|x l IH]; cbn [sortMarkers fold_right].
  - constructor.
  - now apply insertMarker_sorted.
Qed.

(** With distinct ids no tie is left. *)
Lemma sorted_strict l :
  NoDup (map id l) ->
  StronglySorted marker_le l -> StronglySorted marker_lt l.
Proof.
  intros Hnd Hs. induction Hs as [|x l Hl IH Hx]; [constructor|].
  cbn [map] in Hnd. inversion Hnd as [|? ? Hnotin Hnd']; subst.
  constructor; [now apply IH|].
  apply Forall_forall. intros y Hy.
  rewrite Forall_forall in Hx. specialize (Hx y Hy).
  destruct Hx as [H|[H H']]; [now left|].
  right. split; [assumption|].
  assert (id x <> id y); [|lia].
  intros E. apply Hnotin. rewrite E. now apply in_map.
Qed.

Lemma seq_ids_NoDup n : NoDup (map Z.of_nat (seq 0 n)).
Proof.
  apply Finite.Injective_map_NoDup.
  - intros a b. apply Nat2Z.inj.
  - apply seq_NoDup.
Qed.

Lemma timeline_sorted c browserTime :
  StronglySorted marker_lt (timeline c browserTime).
Proof.
  unfold timeline. apply sorted_strict.
  - eapply Permutation_NoDup.
    + apply Permutation_map. symmetry. apply sortMarkers_perm.
    + rewrite buildMarkers_ids. apply seq_ids_NoDup.
  - apply sortMarkers_sorted.
Qed.

End Sort.

(** * Computations and the trace *)

Section Faithful.

Lemma rejectedLast_nil {A} h base (out : outcome A) :
  rejectedLast h base [] out.
Proof. intros k ev e H. now destruct k. Qed.

Lemma faithful_ret {A} (a : A) : faithful (ret a).
Proof.
  intros h tr. exists []. cbn. rewrite app_nil_r. split; [easy|].
  apply rejectedLast_nil.
Qed.

Lemma faithful_throw {A} e : faithful (@throw A e).
Proof.
  intros h tr. exists []. cbn. rewrite app_nil_r. split; [easy|].
  apply rejectedLast_nil.
Qed.

Lemma faithful_pending {A} : faithful (@pending A).
Proof.
  intros h tr. exists []. cbn. rewrite app_nil_r. split; [easy|].
  apply rejectedLast_nil.
Qed.

Lemma faithful_call e : faithful (call e).
Proof.
  intros h tr. exists [e]. unfold call.
  destruct (rejects h (List.length tr)) as [err|] eqn:E; cbn [fst snd];
    (split; [reflexivity|]); intros k ev e' Hk _ Hr;
    destruct k as [|[|k]]; try discriminate;
    rewrite Nat.add_0_r in Hr; (split; [congruence|reflexivity]).
Qed.

Lemma faithful_querySelector s : faithful (querySelector s).
Proof.
  intros h tr. exists [QuerySelector s]. unfold querySelector.
  destruct (rejects h (List.length tr)) as [err|] eqn:E; cbn [fst snd];
    (split; [reflexivity|]); intros k ev e' Hk _ Hr;
    destruct k as [|[|k]]; try discriminate;
    rewrite Nat.add_0_r in Hr; (split; [congruence|reflexivity]).
Qed.

Lemma faithful_log c m : faithful (log c m).
Proof.
  intros h tr. exists (logged c m). unfold log, logged.
  destruct (cfg_quiet c); cbn [fst snd].
  - rewrite app_nil_r. split; [easy|]. apply rejectedLast_nil.
  - split; [easy|]. intros k ev e Hk Hc.
    destruct k as [|[|k]]; try discriminate.
    injection Hk as <-. discriminate.
Qed.

Lemma faithful_startWait ms :
  faithful (fun _ tr => (tr ++ [StartWait ms], Returned tt)).
Proof.
  intros h tr. exists [StartWait ms]. cbn [fst snd]. split; [easy|].
  intros k ev e Hk Hc. destruct k as [|[|k]]; try discriminate.
  injection Hk as <-. discriminate.
Qed.

Lemma faithful_bind {A B} (m : M A) (k : A -> M B) :
  faithful m -> (forall a, faithful (k a)) -> faithful (bind m k).
Proof.
  intros Hm Hk h tr. unfold bind.
  destruct (Hm h tr) as (new1 & E1 & R1).
  destruct (m h tr) as [tr1 [a|e|]]; cbn [fst snd] in *; subst tr1.
  - destruct (Hk a h (tr ++ new1)) as (new2 & E2 & R2).
    exists (new1 ++ new2). rewrite E2, app_assoc. split; [reflexivity|].
    intros j ev e Hj Hc Hr.
    destruct (Nat.lt_ge_cases j (List.length new1)) as [Hlt|Hge].
    + rewrite nth_error_app1 in Hj by assumption.
      destruct (R1 j ev e Hj Hc Hr) as [? _]. discriminate.
    + rewrite nth_error_app2 in Hj by assumption.
      rewrite length_app in R2.
      destruct (R2 (j - List.length new1)%nat ev e Hj Hc) as [-> Hl].
      * rewrite <- Hr. f_equal. lia.
      * split; [reflexivity|]. rewrite length_app. lia.
  - exists new1. split; [reflexivity|].
    intros j ev e' Hj Hc Hr. destruct (R1 j ev e' Hj Hc Hr) as [H1 H2].
    split; congruence.
  - exists new1. split; [reflexivity|].
    intros j ev e' Hj Hc Hr. destruct (R1 j ev e' Hj Hc Hr) as [H1 H2].
    discriminate.
Qed.

Lemma faithful_when b m : faithful m -> faithful (when b m).
Proof. destruct b; [easy|]. intros _. apply faithful_ret. Qed.

Lemma faithful_frameCountOf m : faithful (frameCountOf m).
Proof.
  unfold frameCountOf. destruct (data m);
    [apply faithful_ret|apply faithful_throw].
Qed.

End Faithful.

Create HintDb faithful.

#[local] Hint Resolve faithful_ret faithful_throw faithful_pending
  faithful_call faithful_querySelector faithful_log faithful_startWait
  faithful_frameCountOf : faithful.

(** Splits a sequence of binds into its steps. *)
Ltac faithful_steps :=
  repeat (first
    [ apply faithful_bind; [|intros ?]
    | apply faithful_when
    | progress auto with faithful ]).

Section FaithfulRun.

Variables (c : config) (cap : capturer).

Lemma faithful_primingLoop fuel selector :
  forall t, faithful (primingLoop fuel c selector t).
Proof.
  induction fuel as [|fuel IH]; intros t; cbn [primingLoop].
  - apply faithful_pending.
  - apply faithful_bind; [apply faithful_querySelector|].
    intros found. destruct (negb found).
    + apply faithful_bind; [apply faithful_call|]. intros _. apply IH.
    + apply faithful_ret.
Qed.

Lemma faithful_priming fuel : faithful (priming fuel c).
Proof.
  unfold priming.
  destruct (truthy_string (cfg_captureWhileSelectorExists c));
    [|apply faithful_ret].
  apply faithful_bind; [apply faithful_querySelector|].
  intros found. destruct (negb found).
  - apply faithful_primingLoop.
  - apply faithful_ret.
Qed.

Lemma faithful_runMarkers ms : faithful (runMarkers c cap ms).
Proof.
  induction ms as [|m ms IH]; cbn [runMarkers]; [apply faithful_ret|].
  destruct (type m).
  - apply faithful_bind; [apply faithful_call|]. intros _.
    apply faithful_bind.
    + destruct (truthy_string (cfg_captureWhileSelectorExists c));
        faithful_steps.
    + intros stop. destruct stop; [apply faithful_ret|].
      faithful_steps.
  - apply faithful_bind; [apply faithful_call|]. intros _. exact IH.
Qed.

Lemma faithful_initialize : faithful (initialize c cap).
Proof. unfold initialize. faithful_steps. Qed.

Lemma faithful_captureRun fuel : faithful (captureRun fuel c cap).
Proof.
  unfold captureRun.
  apply faithful_bind; [apply faithful_priming|]. intros bt.
  apply faithful_bind; [apply faithful_runMarkers|]. intros _.
  faithful_steps.
Qed.

Lemma faithful_tryBody fuel : faithful (tryBody fuel c cap).
Proof.
  unfold tryBody.
  apply faithful_bind; [apply faithful_initialize|]. intros _.
  apply faithful_captureRun.
Qed.

End FaithfulRun.

(** * Runs in which no call is rejected *)

Section Accepting.

Variables (c : config) (cap : capturer) (h : host).
Hypothesis accepts : neverRejects h.

Lemma call_accepted e tr : call e h tr = (tr ++ [e], Returned tt).
Proof. unfold call. now rewrite accepts. Qed.

Lemma querySelector_accepted s tr :
  querySelector s h tr
  = (tr ++ [QuerySelector s], Returned (selectorExists h (queries tr))).
Proof. unfold querySelector. now rewrite accepts. Qed.

Lemma log_eq m (h' : host) tr : log c m h' tr = (tr ++ logged c m, Returned tt).
Proof.
  unfold log, logged. destruct (cfg_quiet c); now rewrite ?app_nil_r.
Qed.

Lemma queries_app tr1 tr2 : queries (tr1 ++ tr2) = (queries tr1 + queries tr2)%nat.
Proof. unfold queries. now rewrite filter_app, length_app. Qed.

Lemma queries_logged m : queries (logged c m) = O.
Proof. unfold logged. now destruct (cfg_quiet c). Qed.

(** ** Before priming *)

Lemma initialize_accepted tr :
  initialize c cap h tr = (tr ++ initializeEvents c cap, Returned tt).
Proof.
  unfold initialize, initializeEvents, bind, when, ret.
  destruct (cfg_viewport c), (cfg_preparePage c), (beforeCapture cap);
    repeat first [rewrite log_eq | rewrite call_accepted
                 | progress cbn beta iota];
    rewrite <- ?app_assoc; cbn [app]; rewrite <- ?app_assoc;
    cbn [app]; rewrite ?app_nil_r; reflexivity.
Qed.

Lemma initializeEvents_quiet :
  queries (initializeEvents c cap) = O
  /\ advanceTargets (initializeEvents c cap) = [].
Proof.
  unfold initializeEvents, logged.
  destruct (cfg_quiet c), (cfg_viewport c), (cfg_preparePage c),
    (beforeCapture cap); split; reflexivity.
Qed.

(** ** The priming loop *)

Lemma primingSteps_queries k s step t :
  queries (primingSteps k s step t) = S k.
Proof.
  revert t. induction k as [|k IH]; intros t; [reflexivity|].
  cbn [primingSteps]. change (queries (?a :: ?b :: ?l))
    with (S (queries l)). now rewrite IH.
Qed.

(** The element shows up at the [k]-th test of the loop: [k] steps. *)
Lemma primingLoop_found k s :
  forall fuel t tr,
    (forall j, (j < k)%nat -> selectorExists h (queries tr + j) = false) ->
    selectorExists h (queries tr + k) = true ->
    (k < fuel)%nat ->
    primingLoop fuel c s t h tr
    = (tr ++ primingSteps k s (frameDuration c) t,
       Returned (t + of_Z (Z.of_nat k) * frameDuration c)).
Proof.
  induction k as [|k IH]; intros fuel t tr Habsent Hfound Hfuel;
    (destruct fuel as [|fuel]; [lia|]); cbn [primingLoop primingSteps];
    unfold bind; rewrite querySelector_accepted.
  - rewrite Nat.add_0_r in Hfound. rewrite Hfound. cbn [negb]. unfold ret.
    do 2 f_equal. change (Z.of_nat 0) with 0%Z. rewrite of_Z_0. ring.
  - rewrite <- (Nat.add_0_r (queries tr)), Habsent by lia. cbn [negb].
    rewrite call_accepted, IH.
    + rewrite <- !app_assoc. cbn [app]. do 2 f_equal.
      replace (Z.of_nat (S k)) with (1 + Z.of_nat k)%Z by lia.
      rewrite of_Z_plus, of_Z_1. ring.
    + intros j Hj. rewrite !queries_app. cbn.
      replace (queries tr + 1 + 0 + j)%nat
        with (queries tr + S j)%nat by lia.
      apply Habsent. lia.
    + rewrite !queries_app. cbn.
      replace (queries tr + 1 + 0 + k)%nat
        with (queries tr + S k)%nat by lia.
      exact Hfound.
    + lia.
Qed.

(** The element never shows up: the loop uses all its fuel, one step of
    [frameDuration] for each unit. *)
Lemma primingLoop_pending s :
  forall fuel t tr,
    (forall j, selectorExists h (queries tr + j) = false) ->
    snd (primingLoop fuel c s t h tr) = Pending
    /\ advanceTargets (fst (primingLoop fuel c s t h tr))
       = advanceTargets tr
         ++ map (fun i => t + of_Z i * frameDuration c) (range fuel).
Proof.
  induction fuel as [|fuel IH]; intros t tr Habsent.
  - cbn. now rewrite app_nil_r.
  - cbn [primingLoop]. unfold bind. rewrite querySelector_accepted.
    rewrite <- (Nat.add_0_r (queries tr)), Habsent. cbn [negb].
    rewrite call_accepted.
    destruct (IH (t + frameDuration c)
                ((tr ++ [QuerySelector s])
                 ++ [GoToTimeAndAnimate (t + frameDuration c)]))
      as [IH1 IH2].
    + intros j. rewrite !queries_app. cbn.
      replace (queries tr + 1 + 0 + j)%nat
        with (queries tr + S j)%nat by lia.
      apply Habsent.
    + split; [exact IH1|]. rewrite IH2.
      assert (Happ : forall l1 l2,
                 advanceTargets (l1 ++ l2)
                 = advanceTargets l1 ++ advanceTargets l2).
      { induction l1 as [|[] l1 IHl]; intros l2; cbn; rewrite ?IHl; easy. }
      rewrite !Happ. cbn [advanceTargets]. rewrite app_nil_r, <- app_assoc.
      f_equal. cbn [app]. unfold range.
      rewrite <- (cons_seq fuel 1), <- (seq_shift fuel 1).
      cbn [map]. rewrite !map_map.
      apply (f_equal2 cons).
      * change (Z.of_nat 1) with 1%Z. rewrite of_Z_1. ring.
      * apply map_ext. intros i.
        replace (Z.of_nat (S i)) with (1 + Z.of_nat i)%Z by lia.
        rewrite of_Z_plus, of_Z_1. ring.
Qed.

(** ** The marker loop *)

Variable s : string.
Hypothesis selector : truthy_string (cfg_captureWhileSelectorExists c) = Some s.

Lemma runMarkers_animate m rest tr :
  type m = OnlyAnimate ->
  runMarkers c cap (m :: rest) h tr
  = runMarkers c cap rest h (tr ++ markerEvents c cap (Some s) m).
Proof.
  intros Hm. cbn [runMarkers]. unfold markerEvents. rewrite Hm.
  unfold bind. now rewrite call_accepted.
Qed.

(** The element is there after the advance: the capture goes ahead. *)
Lemma runMarkers_capture m rest tr i :
  type m = Capture -> data m = Some i ->
  selectorExists h (queries tr) = true ->
  runMarkers c cap (m :: rest) h tr
  = runMarkers c cap rest h (tr ++ markerEvents c cap (Some s) m).
Proof.
  intros Hm Hd Hfound. cbn [runMarkers]. unfold markerEvents.
  rewrite Hm, Hd, selector.
  unfold bind at 1. rewrite call_accepted.
  unfold bind at 1. unfold bind at 1. rewrite querySelector_accepted.
  rewrite queries_app. cbn [queries filter is_query List.length].
  rewrite Nat.add_0_r, Hfound. unfold ret at 1. cbn [negb].
  unfold frameCountOf. rewrite Hd.
  destruct (cfg_preparePageForScreenshot c), (capture cap);
    unfold when, bind, ret;
    repeat first [rewrite log_eq | rewrite call_accepted
                 | progress cbn beta iota];
    f_equal; rewrite <- ?app_assoc; cbn [app]; rewrite ?app_nil_r;
    reflexivity.
Qed.

(** The element is gone after the advance: the loop is left. *)
Lemma runMarkers_break m rest tr :
  type m = Capture ->
  selectorExists h (queries tr) = false ->
  runMarkers c cap (m :: rest) h tr
  = (tr ++ [GoToTimeAndAnimateForCapture (time m); QuerySelector s],
     Returned tt).
Proof.
  intros Hm Hgone. cbn [runMarkers]. rewrite Hm, selector.
  unfold bind. rewrite call_accepted, querySelector_accepted.
  rewrite queries_app. cbn [queries filter is_query List.length].
  rewrite Nat.add_0_r, Hgone. unfold ret. cbn [negb].
  now rewrite <- app_assoc.
Qed.

Lemma captures_cons m ms :
  captures (m :: ms)
  = ((if is_capture m then 1 else 0) + captures ms)%nat.
Proof. unfold captures. cbn [filter]. now destruct (is_capture m). Qed.

Lemma markerEvents_queries m :
  queries (markerEvents c cap (Some s) m)
  = if is_capture m then 1%nat else 0%nat.
Proof.
  unfold markerEvents, is_capture. destruct (type m); [|reflexivity].
  rewrite !queries_app.
  destruct (cfg_preparePageForScreenshot c), (capture cap), (data m);
    rewrite ?queries_app, ?queries_logged; reflexivity.
Qed.

(** The markers before the one at which the element is gone run in full;
    nothing runs after it. *)
Lemma runMarkers_stops pre :
  forall m post tr,
    framed pre -> type m = Capture ->
    (forall j, (j < captures pre)%nat ->
               selectorExists h (queries tr + j) = true) ->
    selectorExists h (queries tr + captures pre) = false ->
    runMarkers c cap (pre ++ m :: post) h tr
    = (tr ++ flat_map (markerEvents c cap (Some s)) pre
          ++ [GoToTimeAndAnimateForCapture (time m); QuerySelector s],
       Returned tt).
Proof.
  induction pre as [|x pre IH]; intros m post tr Hframed Hm Hthere Hgone.
  - cbn [app flat_map]. apply runMarkers_break; [assumption|].
    now rewrite Nat.add_0_r in Hgone.
  - inversion Hframed as [|? ? Hx Hpre]; subst.
    cbn [app flat_map]. rewrite captures_cons in Hthere, Hgone.
    pose proof (markerEvents_queries x) as Hq.
    unfold is_capture in Hq, Hthere, Hgone.
    destruct (type x) eqn:Tx.
    + destruct (Hx eq_refl) as [i Hi].
      rewrite (runMarkers_capture _ _ _ i Tx Hi).
      * rewrite IH; try assumption.
        -- now rewrite <- !app_assoc.
        -- intros j Hj. rewrite queries_app, Hq.
           replace (queries tr + 1 + j)%nat
             with (queries tr + S j)%nat by lia.
           apply Hthere. lia.
        -- rewrite queries_app, Hq. rewrite <- Hgone. f_equal. lia.
      * rewrite <- (Nat.add_0_r (queries tr)). apply Hthere. lia.
    + rewrite (runMarkers_animate _ _ _ Tx).
      rewrite IH; try assumption.
      * now rewrite <- !app_assoc.
      * intros j Hj. rewrite queries_app, Hq, Nat.add_0_r. now apply Hthere.
      * now rewrite queries_app, Hq, Nat.add_0_r.
Qed.

End Accepting.

(** * The marker loop runs the markers in list order *)

Section Order.

Variables (c : config) (cap : capturer).

Lemma logged_no_advance m : filter is_advance (logged c m) = [].
Proof. unfold logged. now destruct (cfg_quiet c). Qed.

(** One marker: its advance, then events that are no advance; after them
    the loop goes on with the rest or the run of the loop is over. *)
Lemma runMarkers_step m rest h tr :
  exists evs,
    filter is_advance evs = []
    /\ (runMarkers c cap (m :: rest) h tr
        = runMarkers c cap rest h (tr ++ advanceEvent m :: evs)
        \/ fst (runMarkers c cap (m :: rest) h tr)
           = tr ++ advanceEvent m :: evs).
Proof.
  cbn [runMarkers]. unfold advanceEvent.
  destruct (type m);
    unfold bind, call, querySelector, when, frameCountOf, ret, throw;
    repeat match goal with
      | |- context [log c ?x ?h ?t] => rewrite (log_eq c x h t)
      | |- context [match ?x with _ => _ end] =>
          lazymatch x with
          | context [match _ with _ => _ end] => fail
          | _ => destruct x eqn:?
          end
      end;
    cbn [fst snd negb];
    rewrite <- ?app_assoc; cbn [app];
    eexists;
    (split;
     [|first [ left; reflexivity | right; reflexivity ]]);
    repeat (cbn [filter is_advance app];
            rewrite ?filter_app, ?logged_no_advance);
    reflexivity.
Qed.

Lemma runMarkers_prefix ms :
  forall h tr, exists k new,
    fst (runMarkers c cap ms h tr) = tr ++ new
    /\ filter is_advance new = map advanceEvent (firstn k ms).
Proof.
  induction ms as [|m ms IH]; intros h tr.
  - exists O, []. cbn. now rewrite app_nil_r.
  - destruct (runMarkers_step m ms h tr) as (evs & Hevs & [Hgo|Hstop]).
    + destruct (IH h (tr ++ advanceEvent m :: evs)) as (k & new & E & F).
      exists (S k), (advanceEvent m :: evs ++ new).
      rewrite Hgo, E. split.
      * now rewrite <- app_assoc.
      * cbn [firstn map filter].
        replace (is_advance (advanceEvent m)) with true
          by (unfold advanceEvent; now destruct (type m)).
        now rewrite filter_app, Hevs, F.
    + exists 1%nat, (advanceEvent m :: evs). split; [assumption|].
      cbn [firstn map filter].
      replace (is_advance (advanceEvent m)) with true
        by (unfold advanceEvent; now destruct (type m)).
      now rewrite Hevs.
Qed.

End Order.

(** * The claims about the configuration and the builder *)

(** Equations between closed terms that hold numbers. *)
Ltac number_eq :=
  repeat first
    [ apply Qc_is_canon; vm_compute; reflexivity
    | reflexivity
    | f_equal ].

Lemma truthy_given x v : given x v -> truthy x = Some v.
Proof.
  intros [-> Hv]. cbn. apply eqb_neq in Hv. now rewrite Hv.
Qed.

Lemma truthy_unset x : unset x -> truthy x = None.
Proof.
  intros [->| ->]; [reflexivity|]. cbn.
  replace (eqb 0 0) with true by (symmetry; now apply eqb_eq). reflexivity.
Qed.

Lemma subdivisionTimes_unset x last times :
  truthy x = None -> subdivisionTimes x last times = [].
Proof.
  intros H. revert last.
  induction times as [|t times IH]; intros last; [reflexivity|].
  cbn [subdivisionTimes]. now rewrite H, IH.
Qed.

Lemma subdivisionTimes_truthy x d last times :
  truthy x = Some d ->
  subdivisionTimes x last times = subdivisionTimes (Some d) last times.
Proof.
  intros H. assert (Hd : truthy (Some d) = Some d).
  { destruct x as [v|]; cbn in H |- *; [|discriminate].
    destruct (eqb v 0) eqn:E; [discriminate|].
    injection H as <-. now rewrite E. }
  revert last.
  induction times as [|t times IH]; intros last; cbn [subdivisionTimes];
    rewrite ?H, ?Hd, ?IH; auto.
Qed.

Lemma frameCount_natural c n :
  framesToCapture c = of_Z (Z.of_nat n) -> frameCount c = n.
Proof.
  intros H. unfold frameCount. rewrite H.
  rewrite (Qfloor_comp _ _ (this_of_Z _)), Qfloor_Z. lia.
Qed.

(** C8.  The frame count and the rate.  A frames value that is given is the
    frame count, and the rate is then the fps given, else frames / duration
    when a duration is given, else 60.  Without a frames value the rate is
    the fps given, else 60, and the frame count is duration * rate, with 5
    for a duration that is not given; so the empty configuration captures
    300 frames at 60 per second.  The default mapping sends the frame [i] to
    [(i - 1) * (1000 / fps)]. *)
Theorem frames_and_fps_resolution (c : config) :
  (forall f, given (cfg_frames c) f ->
     framesToCapture c = f
     /\ (forall r, given (cfg_fps c) r -> fps c = r)
     /\ (unset (cfg_fps c) ->
         (forall d, given (cfg_duration c) d -> fps c = f / d)
         /\ (unset (cfg_duration c) -> fps c = lit 60)))
  /\ (unset (cfg_frames c) ->
      (forall r, given (cfg_fps c) r -> fps c = r)
      /\ (unset (cfg_fps c) -> fps c = lit 60)
      /\ (forall d, given (cfg_duration c) d -> framesToCapture c = d * fps c)
      /\ (unset (cfg_duration c) -> framesToCapture c = lit 5 * fps c))
  /\ (unset (cfg_frames c) -> unset (cfg_duration c) -> unset (cfg_fps c) ->
      framesToCapture c = lit 300 /\ fps c = lit 60)
  /\ (cfg_frameNumToTime c = None ->
      forall i total,
        frameNumToTime c i total = (of_Z i - 1) * (lit 1000 / fps c)).
Proof.
  unfold framesToCapture, fps, frameNumToTime, frameDuration, resolve.
  repeat split.
  - apply truthy_given in H. now rewrite H.
  - intros r Hr. apply truthy_given in H, Hr. now rewrite H, Hr.
  - intros d Hd. apply truthy_given in H, Hd. apply truthy_unset in H0.
    now rewrite H, H0, Hd.
  - intros Hd. apply truthy_given in H. apply truthy_unset in H0, Hd.
    now rewrite H, H0, Hd.
  - intros r Hr. apply truthy_unset in H. apply truthy_given in Hr.
    rewrite H, Hr. now destruct (truthy (cfg_duration c)).
  - intros Hr. apply truthy_unset in H, Hr.
    rewrite H, Hr. now destruct (truthy (cfg_duration c)).
  - intros d Hd. apply truthy_unset in H. apply truthy_given in Hd.
    now rewrite H, Hd.
  - intros Hd. apply truthy_unset in H, Hd. now rewrite H, Hd.
  - apply truthy_unset in H, H0, H1. rewrite H, H0, H1. cbn [fst].
    apply Qc_is_canon. reflexivity.
  - apply truthy_unset in H, H0, H1. rewrite H, H1.
    now destruct (truthy (cfg_duration c)).
  - intros H i total. now rewrite H.
Qed.

Lemma frames_and_fps_resolution_witness :
  framesToCapture empty_config = lit 300 /\ fps empty_config = lit 60.
Proof.
  apply (proj1 (proj2 (proj2 (frames_and_fps_resolution empty_config))));
    left; reflexivity.
Defined.

(** C2, as amended.  For a configuration whose frame count is the natural
    number [n], the builder creates exactly [n] capture markers; they are
    created first and in the order of their frame numbers 1, ..., [n] (the
    ids are 0, ..., [n - 1]); the time of the [i]-th one is the start delay
    plus [browserTime], the virtual time at which priming ended, plus
    [frameNumToTime i n].  When priming made no step this is the start
    delay plus [frameNumToTime i n]. *)
Theorem capture_markers_of_the_timeline (c : config) (browserTime : number)
  (n : nat) :
  framesToCapture c = of_Z (Z.of_nat n) ->
  filter is_capture (buildMarkers c browserTime)
  = map (fun i =>
           {| time := delayMs c + browserTime
                      + frameNumToTime c i (of_Z (Z.of_nat n));
              type := Capture;
              data := Some i;
              id := (i - 1)%Z |})
        (range n)
  /\ List.length (filter is_capture (buildMarkers c browserTime)) = n
  /\ firstn n (buildMarkers c browserTime)
     = filter is_capture (buildMarkers c browserTime)
  /\ (browserTime = 0 ->
      map time (filter is_capture (buildMarkers c browserTime))
      = map (fun i => delayMs c + frameNumToTime c i (of_Z (Z.of_nat n)))
            (range n)).
Proof.
  intros HN. pose proof (frameCount_natural c n HN) as Hn.
  assert (E : filter is_capture (buildMarkers c browserTime)
              = map (captureMarker c browserTime) (range n)).
  { rewrite buildMarkers_eq, filter_app, captureMarker_capture,
      animateMarkers_not_capture, app_nil_r. now rewrite Hn. }
  rewrite E. unfold captureMarker. rewrite HN. repeat split.
  - now rewrite length_map, range_length.
  - rewrite buildMarkers_eq, Hn. unfold captureMarker. rewrite HN.
    rewrite firstn_app, length_map, range_length, Nat.sub_diag.
    cbn [firstn]. rewrite app_nil_r.
    apply firstn_all2. now rewrite length_map, range_length.
  - intros ->. rewrite map_map. apply map_ext. intros i. cbn [time]. ring.
Qed.

Lemma capture_markers_of_the_timeline_witness :
  filter is_capture (buildMarkers scenarioA 0)
  = [ {| time := lit 1000 * 0 + 0 + frameNumToTime scenarioA 1 (lit 3);
         type := Capture; data := Some 1%Z; id := 0 |};
      {| time := lit 1000 * 0 + 0 + frameNumToTime scenarioA 2 (lit 3);
         type := Capture; data := Some 2%Z; id := 1 |};
      {| time := lit 1000 * 0 + 0 + frameNumToTime scenarioA 3 (lit 3);
         type := Capture; data := Some 3%Z; id := 2 |} ].
Proof.
  apply (capture_markers_of_the_timeline scenarioA 0 3).
  apply Qc_is_canon. reflexivity.
Defined.

(** C2, as stated, fails once priming has advanced the clock: in the run of
    [delayedStart] where the element appears at the third query, priming
    ends at 100 ms and the capture marker of frame 1 is at 1100 ms, not at
    the start delay plus [frameNumToTime 1 2], which is 1000 ms. *)
Lemma primed_capture_marker_is_later :
  exists ms m,
    markersOfRun 5 delayedStart frameCapturer appearsAtThird = Some ms
    /\ In m ms /\ type m = Capture /\ data m = Some 1%Z
    /\ time m = lit 1100
    /\ time m <> delayMs delayedStart
                 + frameNumToTime delayedStart 1 (framesToCapture delayedStart).
Proof.
  eexists. exists (captureMarker delayedStart (lit 100) 1).
  split; [vm_compute; reflexivity|].
  split; [right; left; unfold captureMarker; number_eq|].
  split; [reflexivity|]. split; [reflexivity|]. split.
  - apply Qc_is_canon. reflexivity.
  - intros H. apply this_eq in H. vm_compute in H. discriminate.
Qed.

Lemma between_same d t : between d t t = [].
Proof.
  unfold between.
  replace ((t - t) / d) with 0 by (unfold Qcdiv; ring).
  reflexivity.
Qed.

Lemma between_from_zero d t :
  between d 0 t
  = map (fun i => (of_Z i * t) / of_Z (ceil (t / d)))
        (range (Z.to_nat (ceil (t / d) - 1))).
Proof.
  unfold between. replace (t - 0) with t by ring.
  apply map_ext. intros i. ring.
Qed.

(** C7.  When the first capture time is above 100 ms the builder adds one
    animate-only marker at 20 ms, right after the capture markers; the
    only other animate-only markers are those of the subdivision, and there
    are none when no maximum duration is set.  When the first capture time
    is at most 100 ms, or there is no capture time, no such marker is
    added.  For frames=3, fps=10, start=0 the capture times are 0, 100 and
    200 ms and the list holds the three capture markers and nothing else. *)
Theorem early_animation_frame :
  (forall (c : config) (browserTime : number),
     (forall t0 rest,
        captureTimes c = t0 :: rest -> lit 100 < t0 ->
        filter is_animate (buildMarkers c browserTime)
        = {| time := lit 20; type := OnlyAnimate; data := None;
             id := Z.of_nat (frameCount c) |}
          :: animateMarkers (Z.of_nat (frameCount c) + 1)
               (subdivisionTimes (cfg_maximumAnimationFrameDuration c) 0
                  (captureTimes c)))
     /\ (forall t0 rest,
           captureTimes c = t0 :: rest -> t0 <= lit 100 ->
           filter is_animate (buildMarkers c browserTime)
           = animateMarkers (Z.of_nat (frameCount c))
               (subdivisionTimes (cfg_maximumAnimationFrameDuration c) 0
                  (captureTimes c)))
     /\ (captureTimes c = [] ->
         filter is_animate (buildMarkers c browserTime) = [])
     /\ (unset (cfg_maximumAnimationFrameDuration c) ->
         subdivisionTimes (cfg_maximumAnimationFrameDuration c) 0
           (captureTimes c) = []))
  /\ captureTimes scenarioA = [0; lit 100; lit 200]
  /\ buildMarkers scenarioA 0
     = [ {| time := 0; type := Capture; data := Some 1%Z; id := 0 |};
         {| time := lit 100; type := Capture; data := Some 2%Z; id := 1 |};
         {| time := lit 200; type := Capture; data := Some 3%Z; id := 2 |} ].
Proof.
  split; [|split; vm_compute; number_eq].
  intros c browserTime. rewrite buildMarkers_animate.
  split; [|split; [|split]].
  - intros t0 rest E Ht0. rewrite E at 1. unfold earlyTimes.
    apply ltb_lt in Ht0. unfold addAnimationGapThreshold. rewrite Ht0.
    reflexivity.
  - intros t0 rest E Ht0. rewrite E at 1. unfold earlyTimes.
    apply ltb_ge in Ht0. unfold addAnimationGapThreshold. now rewrite Ht0.
  - intros E. now rewrite E.
  - intros H. apply subdivisionTimes_unset. now apply truthy_unset.
Qed.

Lemma early_animation_frame_witness :
  filter is_animate (buildMarkers delayedStart 0)
  = {| time := lit 20; type := OnlyAnimate; data := None;
       id := Z.of_nat (frameCount delayedStart) |}
    :: animateMarkers (Z.of_nat (frameCount delayedStart) + 1)
         (subdivisionTimes
            (cfg_maximumAnimationFrameDuration delayedStart) 0
            (captureTimes delayedStart)).
Proof.
  apply (proj1 (proj1 early_animation_frame delayedStart 0)
           (lit 1000) [lit 1100]).
  - vm_compute. number_eq.
  - reflexivity.
Defined.

(** C3.  With a maximum animation-frame duration [D > 0], for two
    consecutive capture times [t] and [t'] whose gap [t' - t] is above [D],
    the builder adds, between the markers of the earlier gaps and those of
    the later ones, exactly [ceil ((t' - t) / D) - 1] animate-only markers,
    at [t + i * (t' - t) / ceil ((t' - t) / D)] for
    [i = 1, ..., ceil ((t' - t) / D) - 1], all strictly between [t] and [t'].
    For duration=2, fps=1, D=500 the capture times are 0 and 1000 ms and
    the one animate-only marker is at 500 ms. *)
Theorem subdivision_between_capture_times :
  (forall (c : config) (browserTime D : number) l1 t t' l2,
     given (cfg_maximumAnimationFrameDuration c) D -> 0 < D ->
     captureTimes c = l1 ++ t :: t' :: l2 ->
     D < t' - t ->
     let n := ceil ((t' - t) / D) in
     let inserted :=
       map (fun i => t + (of_Z i * (t' - t)) / of_Z n)
           (range (Z.to_nat (n - 1))) in
     map time (filter is_animate (buildMarkers c browserTime))
     = earlyTimes (captureTimes c)
       ++ subdivisionTimes (Some D) 0 (l1 ++ [t])
       ++ inserted
       ++ subdivisionTimes (Some D) t' l2
     /\ Z.of_nat (List.length inserted) = (n - 1)%Z
     /\ (2 <= n)%Z
     /\ Forall (fun x => t < x /\ x < t') inserted)
  /\ captureTimes scenarioB = [0; lit 1000]
  /\ filter is_animate (buildMarkers scenarioB 0)
     = [ {| time := lit 500; type := OnlyAnimate; data := None; id := 2 |} ].
Proof.
  split; [|split; vm_compute; number_eq].
  intros c browserTime D l1 t t' l2 HD Dpos E Hgap n inserted.
  pose proof (between_steps D t t' Dpos Hgap) as Hn. fold n in Hn.
  split; [|split; [|split]].
  - rewrite buildMarkers_animate, animateMarkers_time.
    rewrite (subdivisionTimes_truthy _ D) by (now apply truthy_given).
    f_equal. rewrite E at 1.
    rewrite subdivisionTimes_app. f_equal.
    cbn [subdivisionTimes].
    replace (truthy (Some D)) with (Some D)
      by (symmetry; apply truthy_given; split;
          [reflexivity|intros ->; now apply Qclt_not_eq in Dpos]).
    reflexivity.
  - unfold inserted. rewrite length_map, range_length. lia.
  - exact Hn.
  - exact (between_inside D t t' Dpos Hgap).
Qed.

Lemma subdivision_between_capture_times_witness :
  map time (filter is_animate (buildMarkers scenarioB 0))
  = earlyTimes (captureTimes scenarioB)
    ++ subdivisionTimes (Some (lit 500)) 0 ([] ++ [0])
    ++ map (fun i =>
              0 + (of_Z i * (lit 1000 - 0))
                  / of_Z (ceil ((lit 1000 - 0) / lit 500)))
           (range (Z.to_nat (ceil ((lit 1000 - 0) / lit 500) - 1)))
    ++ subdivisionTimes (Some (lit 500)) (lit 1000) [].
Proof.
  apply (proj1 subdivision_between_capture_times
           scenarioB 0 (lit 500) [] 0 (lit 1000) []).
  - split; [reflexivity|]. intros H. apply this_eq in H. discriminate.
  - reflexivity.
  - vm_compute. number_eq.
  - reflexivity.
Defined.

(** C10.  The subdivision also cuts the gap from 0 to the first capture
    time [t1]: [lastMarkerTime] starts at 0, so for [t1] above [D > 0] the
    first markers of the subdivision are the [ceil (t1 / D) - 1] animate-only
    markers at [i * t1 / ceil (t1 / D)], all strictly between 0 and [t1].
    With the default mapping and no start delay, [t1] is 0 and the builder
    adds no marker before the first capture time. *)
Theorem subdivision_before_first_capture :
  (forall (c : config) (browserTime D t1 : number) rest,
     given (cfg_maximumAnimationFrameDuration c) D -> 0 < D ->
     captureTimes c = t1 :: rest ->
     D < t1 ->
     let n := ceil (t1 / D) in
     let inserted :=
       map (fun i => (of_Z i * t1) / of_Z n) (range (Z.to_nat (n - 1))) in
     map time (filter is_animate (buildMarkers c browserTime))
     = earlyTimes (captureTimes c)
       ++ inserted
       ++ subdivisionTimes (Some D) t1 rest
     /\ Z.of_nat (List.length inserted) = (n - 1)%Z
     /\ (2 <= n)%Z
     /\ Forall (fun x => 0 < x /\ x < t1) inserted)
  /\ (forall (c : config) (browserTime D t1 : number) rest,
        given (cfg_maximumAnimationFrameDuration c) D ->
        cfg_frameNumToTime c = None -> unset (cfg_start c) ->
        captureTimes c = t1 :: rest ->
        t1 = 0
        /\ map time (filter is_animate (buildMarkers c browserTime))
           = subdivisionTimes (Some D) 0 rest).
Proof.
  split.
  - intros c browserTime D t1 rest HD Dpos E Hgap n inserted.
    assert (Hgap' : D < t1 - 0) by (now replace (t1 - 0) with t1 by ring).
    pose proof (between_steps D 0 t1 Dpos Hgap') as Hn.
    pose proof (between_inside D 0 t1 Dpos Hgap') as Hin.
    rewrite between_from_zero in Hin.
    replace (t1 - 0) with t1 in Hn by ring. fold n in Hn.
    split; [|split; [|split]].
    + rewrite buildMarkers_animate, animateMarkers_time.
      rewrite (subdivisionTimes_truthy _ D) by (now apply truthy_given).
      f_equal. rewrite E at 1. cbn [subdivisionTimes].
      replace (truthy (Some D)) with (Some D)
        by (symmetry; apply truthy_given; split;
            [reflexivity|intros ->; now apply Qclt_not_eq in Dpos]).
      now rewrite between_from_zero.
    + unfold inserted. rewrite length_map, range_length. lia.
    + exact Hn.
    + exact Hin.
  - intros c browserTime D t1 rest HD Hf Hs E.
    assert (Ht1 : t1 = 0).
    { rewrite captureTimes_eq in E.
      destruct (frameCount c) as [|k]; [discriminate|].
      unfold range in E. cbn [seq map] in E. injection E as E _.
      rewrite <- E. unfold captureTime, delayMs, or_else, frameNumToTime.
      rewrite Hf, (truthy_unset _ Hs).
      change (Z.of_nat 1) with 1%Z. rewrite of_Z_1. ring. }
    split; [exact Ht1|]. subst t1.
    rewrite buildMarkers_animate, animateMarkers_time.
    rewrite (subdivisionTimes_truthy _ D) by (now apply truthy_given).
    rewrite E. cbn [earlyTimes subdivisionTimes app].
    destruct (truthy (Some D)); [now rewrite between_same|reflexivity].
Qed.

Lemma subdivision_before_first_capture_witness :
  map time (filter is_animate (buildMarkers delayedSubdivided 0))
  = earlyTimes (captureTimes delayedSubdivided)
    ++ map (fun i => (of_Z i * lit 1000) / of_Z (ceil (lit 1000 / lit 500)))
           (range (Z.to_nat (ceil (lit 1000 / lit 500) - 1)))
    ++ subdivisionTimes (Some (lit 500)) (lit 1000) [lit 2000].
Proof.
  apply (proj1 subdivision_before_first_capture
           delayedSubdivided 0 (lit 500) (lit 1000) [lit 2000]).
  - split; [reflexivity|]. intros H. apply this_eq in H. discriminate.
  - reflexivity.
  - vm_compute. number_eq.
  - reflexivity.
Defined.

(** * The claims about the order of the markers and the marker loop *)

Lemma NoDup_map_eq {A B} (f : A -> B) (l : list A) :
  NoDup (map f l) ->
  forall a b, In a l -> In b l -> f a = f b -> a = b.
Proof.
  induction l as [|x l IH]; intros Hnd a b Ha Hb E; [easy|].
  cbn [map] in Hnd. inversion Hnd as [|? ? Hnotin Hnd']; subst.
  destruct Ha as [<-|Ha], Hb as [<-|Hb]; auto.
  - exfalso. apply Hnotin. rewrite E. now apply in_map.
  - exfalso. apply Hnotin. rewrite <- E. now apply in_map.
Qed.

Lemma marker_lt_asym a b : marker_lt a b -> ~ marker_lt b a.
Proof.
  intros H H'. apply (marker_lt_irrefl a). now apply marker_lt_trans with b.
Qed.

(** C6.  The order of execution is total.  The ids are 0, 1, 2, ... in
    creation order; the list that is run is the list that was built,
    sorted by ascending time and, at equal times, ascending id;
    [compareMarkers] is negative exactly on that order, zero only for equal
    time and id, antisymmetric, and looks at the ids only at equal times;
    two distinct markers of the list are ordered one way and not the other;
    and the markers whose clock advance the loop issues are a prefix of the
    sorted list, in its order. *)
Theorem marker_order_is_total (c : config) (browserTime : number) :
  map id (buildMarkers c browserTime)
  = map Z.of_nat (seq 0 (List.length (buildMarkers c browserTime)))
  /\ Permutation (buildMarkers c browserTime) (timeline c browserTime)
  /\ StronglySorted marker_lt (timeline c browserTime)
  /\ (forall a b,
        (compareMarkers a b < 0 <-> marker_lt a b)
        /\ (compareMarkers a b = 0 <-> time a = time b /\ id a = id b)
        /\ compareMarkers b a = - compareMarkers a b
        /\ (time a <> time b -> compareMarkers a b = time a - time b))
  /\ (forall a b,
        In a (timeline c browserTime) -> In b (timeline c browserTime) ->
        a <> b ->
        (marker_lt a b /\ ~ marker_lt b a)
        \/ (marker_lt b a /\ ~ marker_lt a b))
  /\ (forall cap h tr, exists k new,
        fst (runMarkers c cap (timeline c browserTime) h tr) = tr ++ new
        /\ filter is_advance new
           = map advanceEvent (firstn k (timeline c browserTime))).
Proof.
  assert (Hperm : Permutation (buildMarkers c browserTime)
                    (timeline c browserTime))
    by (symmetry; apply sortMarkers_perm).
  split; [apply buildMarkers_ids|].
  split; [exact Hperm|].
  split; [apply timeline_sorted|].
  split; [|split].
  - intros a b. split; [apply compareMarkers_lt|].
    split; [apply compareMarkers_zero|].
    split; [apply compareMarkers_antisym|].
    intros H. unfold compareMarkers. apply eqb_neq in H. now rewrite H.
  - intros a b Ha Hb Hab.
    assert (Hid : id a <> id b).
    { intros E. apply Hab.
      apply (NoDup_map_eq id (timeline c browserTime)); try assumption.
      eapply Permutation_NoDup.
      - apply Permutation_map. exact Hperm.
      - rewrite buildMarkers_ids. apply seq_ids_NoDup. }
    destruct (marker_lt_total a b Hid) as [H|H]; [left|right];
      (split; [assumption|now apply marker_lt_asym]).
  - intros cap h tr. apply runMarkers_prefix.
Qed.

Lemma marker_order_is_total_witness :
  let early := {| time := lit 20; type := OnlyAnimate; data := None; id := 2 |} in
  let first := {| time := lit 1000; type := Capture; data := Some 1%Z; id := 0 |} in
  (marker_lt early first /\ ~ marker_lt first early)
  \/ (marker_lt first early /\ ~ marker_lt early first).
Proof.
  intros early first.
  apply (proj1 (proj2 (proj2 (proj2 (proj2
           (marker_order_is_total delayedStart 0))))) early first).
  - left. unfold early. number_eq.
  - right. left. unfold first. number_eq.
  - discriminate.
Defined.

Lemma timeline_framed c browserTime : framed (timeline c browserTime).
Proof.
  unfold framed, timeline.
  eapply Permutation_Forall; [symmetry; apply sortMarkers_perm|].
  rewrite buildMarkers_eq. apply Forall_app. split.
  - apply Forall_forall. intros m Hm. apply in_map_iff in Hm.
    destruct Hm as (i & <- & _). intros _. now exists i.
  - eapply Forall_impl; [|apply animateMarkers_animate].
    intros m [Hm _] Hc. congruence.
Qed.

(** C5.  With [captureWhileSelectorExists] set, each capture marker is run
    as: the clock advance, the query for the element, then the
    [preparePageForScreenshot] hook and the capture ([markerEvents]).  At
    the first capture marker where the query does not find the element the
    loop is left: the trace ends with that advance and that query, whatever
    markers follow, and the loop returns without an error.  The markers of
    a timeline always carry their frame number.  When the element is there
    through frame 5 of a run of 10 frames and gone at the query of frame 6,
    the frames 1 to 5 are captured, the run closes the browser and resolves. *)
Theorem stop_check_before_each_capture :
  (forall (c : config) (cap : capturer) (h : host) (s : string)
          (pre : list marker) (m : marker) (post : list marker)
          (tr : list event),
     truthy_string (cfg_captureWhileSelectorExists c) = Some s ->
     neverRejects h ->
     framed pre -> type m = Capture ->
     (forall j, (j < captures pre)%nat ->
                selectorExists h (queries tr + j) = true) ->
     selectorExists h (queries tr + captures pre) = false ->
     runMarkers c cap (pre ++ m :: post) h tr
     = (tr ++ flat_map (markerEvents c cap (Some s)) pre
           ++ [GoToTimeAndAnimateForCapture (time m); QuerySelector s],
        Returned tt))
  /\ (forall c browserTime, framed (timeline c browserTime))
  /\ (let run := timesnap 0 scenarioC frameCapturer goneAtSixth in
      capturedFrames (fst run) = [1; 2; 3; 4; 5]%Z
      /\ advanceTargets (fst run)
         = [0; lit 100; lit 200; lit 300; lit 400; lit 500]
      /\ last (fst run) GetBrowser = BrowserClose
      /\ snd run = Returned tt).
Proof.
  split; [|split].
  - intros c cap h s pre m post tr Hs Hh Hpre Hm Hthere Hgone.
    now apply runMarkers_stops.
  - apply timeline_framed.
  - vm_compute. repeat split; number_eq.
Qed.

Lemma stop_check_before_each_capture_witness :
  let first := {| time := 0; type := Capture; data := Some 1%Z; id := 0 |} in
  let second := {| time := lit 100; type := Capture; data := Some 2%Z; id := 1 |} in
  let later := {| time := lit 150; type := OnlyAnimate; data := None; id := 2 |} in
  runMarkers scenarioC frameCapturer [first; second; later]
    (answering (fun k => Nat.eqb k 0)) []
  = ([] ++ flat_map (markerEvents scenarioC frameCapturer (Some "#busy"%string))
             [first]
        ++ [GoToTimeAndAnimateForCapture (time second);
            QuerySelector "#busy"%string],
     Returned tt).
Proof.
  intros first second later.
  apply (proj1 stop_check_before_each_capture scenarioC frameCapturer
           (answering (fun k => Nat.eqb k 0)) "#busy"%string
           [first] second [later] []).
  - reflexivity.
  - intros n. reflexivity.
  - repeat constructor. intros _. now exists 1%Z.
  - reflexivity.
  - intros [|j] Hj; [reflexivity|]. cbn in Hj. lia.
  - reflexivity.
Defined.

(** * The claims about priming, errors and the clock *)

Lemma primingSteps_targets k s step :
  forall t,
    advanceTargets (primingSteps k s step t)
    = map (fun i => t + of_Z i * step) (range k).
Proof.
  induction k as [|k IH]; intros t; [reflexivity|].
  cbn [primingSteps advanceTargets]. rewrite IH. unfold range.
  rewrite <- (cons_seq k 1), <- (seq_shift k 1). cbn [map]. rewrite !map_map.
  apply (f_equal2 cons).
  - change (Z.of_nat 1) with 1%Z. rewrite of_Z_1. ring.
  - apply map_ext. intros i.
    replace (Z.of_nat (S i)) with (1 + Z.of_nat i)%Z by lia.
    rewrite of_Z_plus, of_Z_1. ring.
Qed.

(** C4, as amended.  With [captureWhileSelectorExists] set, priming comes
    after the [startDelay] wait, with no query and no advance before it, and
    advances the clock in steps of one frame duration, 1000 / fps ms, while
    the element is absent; it ends as soon as a query finds the element.
    Found at the first query: no advance.  Absent at the queries 0 to [k]
    and found at the next one: [k] advances, to 1, ..., [k] frame durations,
    each after a query, and priming ends at [k] frame durations.  Never
    found: priming goes on for as long as it is run, one advance for each
    unit of fuel. *)
Theorem priming_waits_for_the_element (c : config) (cap : capturer)
  (s : string) (h : host) (tr : list event) :
  truthy_string (cfg_captureWhileSelectorExists c) = Some s ->
  neverRejects h ->
  ((forall fuel,
      tryBody fuel c cap h []
      = (browserTime <- priming fuel c ;;
         runMarkers c cap (timeline c browserTime) ;;
         log c MsgElapsedCaptureTime ;;
         when (afterCapture cap) (call AfterCapture) ;;
         call BrowserClose) h (initializeEvents c cap))
   /\ In (StartWait (startWaitMs c)) (initializeEvents c cap)
   /\ queries (initializeEvents c cap) = O
   /\ advanceTargets (initializeEvents c cap) = [])
  /\ (selectorExists h (queries tr) = true ->
      forall fuel, priming fuel c h tr = (tr ++ [QuerySelector s], Returned 0))
  /\ (forall k fuel,
        (forall j, (j <= k)%nat -> selectorExists h (queries tr + j) = false) ->
        selectorExists h (queries tr + S k) = true ->
        (k < fuel)%nat ->
        priming fuel c h tr
        = (tr ++ QuerySelector s :: primingSteps k s (lit 1000 / fps c) 0,
           Returned (of_Z (Z.of_nat k) * (lit 1000 / fps c)))
        /\ advanceTargets (primingSteps k s (lit 1000 / fps c) 0)
           = map (fun i => of_Z i * (lit 1000 / fps c)) (range k))
  /\ ((forall j, selectorExists h (queries tr + j) = false) ->
      forall fuel,
        snd (priming fuel c h tr) = Pending
        /\ advanceTargets (fst (priming fuel c h tr))
           = advanceTargets tr
             ++ map (fun i => of_Z i * (lit 1000 / fps c)) (range fuel)).
Proof.
  intros Hs Hh. split.
  { split; [|split].
    - intros fuel. unfold tryBody. unfold bind at 1.
      now rewrite (initialize_accepted c cap h Hh).
    - unfold initializeEvents. do 8 (apply in_or_app; right).
      apply in_or_app. left. now left.
    - apply initializeEvents_quiet. }
  unfold priming. rewrite Hs. unfold bind.
  rewrite (querySelector_accepted h Hh).
  assert (Hq : forall j,
             (queries (tr ++ [QuerySelector s]) + j)%nat
             = (queries tr + S j)%nat).
  { intros j. rewrite queries_app. cbn. lia. }
  split; [|split].
  - intros Hfound fuel. now rewrite Hfound.
  - intros k fuel Habsent Hfound Hfuel.
    rewrite <- (Nat.add_0_r (queries tr)), Habsent by lia. cbn [negb].
    split.
    + rewrite (primingLoop_found c h Hh k s).
      * fold (frameDuration c). rewrite <- app_assoc. cbn [app].
        do 2 f_equal. ring.
      * intros j Hj. rewrite Hq. apply Habsent. lia.
      * now rewrite Hq.
      * assumption.
    + rewrite primingSteps_targets. apply map_ext. intros i. ring.
  - intros Habsent fuel.
    rewrite <- (Nat.add_0_r (queries tr)), Habsent. cbn [negb].
    destruct (primingLoop_pending c h Hh s fuel 0 (tr ++ [QuerySelector s]))
      as [H1 H2].
    + intros j. rewrite Hq. apply Habsent.
    + split; [exact H1|]. rewrite H2. fold (frameDuration c).
      f_equal.
      * clear. induction tr as [|[] l IH]; cbn; rewrite ?IH; easy.
      * apply map_ext. intros i. ring.
Qed.

Lemma priming_waits_for_the_element_witness :
  priming 2 delayedStart appearsAtThird []
  = ([] ++ QuerySelector "#busy"%string
        :: primingSteps 1 "#busy"%string (lit 1000 / fps delayedStart) 0,
     Returned (of_Z (Z.of_nat 1) * (lit 1000 / fps delayedStart)))
  /\ advanceTargets
       (primingSteps 1 "#busy"%string (lit 1000 / fps delayedStart) 0)
     = map (fun i => of_Z i * (lit 1000 / fps delayedStart)) (range 1).
Proof.
  apply (proj1 (proj2 (proj2 (priming_waits_for_the_element delayedStart
                         frameCapturer "#busy"%string appearsAtThird []
                         eq_refl (fun n => eq_refl)))) 1%nat 2%nat).
  - intros [|[|j]] Hj; [reflexivity|reflexivity|lia].
  - reflexivity.
  - lia.
Defined.

(** C4, as stated, fails both ways: with the element there at every query
    priming makes no advance at all, and with the element absent at every
    query priming does not stop but keeps advancing, here to 100, 200 and
    300 ms in three rounds. *)
Lemma priming_runs_while_the_element_is_absent :
  priming 3 scenarioC alwaysPresent []
  = ([QuerySelector "#busy"%string], Returned 0)
  /\ advanceTargets (fst (priming 3 scenarioC alwaysPresent [])) = []
  /\ advanceTargets (fst (priming 3 scenarioC neverPresent []))
     = [lit 100; lit 200; lit 300]
  /\ snd (priming 3 scenarioC neverPresent []) = Pending.
Proof.
  vm_compute. repeat split; number_eq.
Qed.

(** C9, as amended.  The exported function never rejects.  An error thrown
    in the body of [try] is passed to the logger and nothing else is done:
    the trace of the run is the trace up to the error followed by what the
    logger writes, so no call already made is undone and the handler makes
    no call of its own ([afterCapture] and [browser.close] are only called
    on the path without error).  Every rejected call is caught in this way:
    a call that the host rejects is the last call of the run, and its error
    is the one logged. *)
Theorem errors_are_caught_and_logged (fuel : nat) (c : config)
  (cap : capturer) (h : host) :
  (forall e, snd (timesnap fuel c cap h) <> Thrown e)
  /\ (forall tr e,
        tryBody fuel c cap h [] = (tr, Thrown e) ->
        timesnap fuel c cap h = (tr ++ logged c (MsgError e), Returned tt))
  /\ (forall n ev e,
        nth_error (fst (timesnap fuel c cap h)) n = Some ev ->
        is_call ev = true ->
        rejects h n = Some e ->
        tryBody fuel c cap h []
        = (firstn (S n) (fst (timesnap fuel c cap h)), Thrown e)
        /\ timesnap fuel c cap h
           = (firstn (S n) (fst (timesnap fuel c cap h))
              ++ logged c (MsgError e),
              Returned tt)).
Proof.
  destruct (faithful_tryBody c cap fuel h []) as (new & E & R).
  cbn [app List.length] in E, R.
  unfold timesnap, catchLog.
  destruct (tryBody fuel c cap h []) as [tr out] eqn:Hbody.
  cbn [fst snd] in E, R. subst new.
  split; [|split].
  - intros e. destruct out; rewrite ?log_eq; discriminate.
  - intros tr' e' H. injection H as <- ->. now rewrite log_eq.
  - intros n ev e Hn Hc Hr.
    assert (Hin : nth_error tr n = Some ev).
    { destruct out as [[]|e'|]; cbn [fst] in Hn; try assumption.
      rewrite log_eq in Hn. cbn [fst] in Hn.
      destruct (Nat.lt_ge_cases n (List.length tr)) as [Hlt|Hge].
      - now rewrite nth_error_app1 in Hn.
      - rewrite nth_error_app2 in Hn by assumption.
        unfold logged in Hn. destruct (cfg_quiet c).
        + now destruct (n - List.length tr)%nat.
        + destruct (n - List.length tr)%nat as [|[|k]]; try discriminate.
          injection Hn as <-. discriminate. }
    destruct (R n ev e Hin Hc Hr) as [-> Hlen].
    rewrite log_eq. cbn [fst].
    rewrite firstn_app, Hlen, Nat.sub_diag, firstn_all. cbn [firstn].
    now rewrite app_nil_r.
Qed.

Lemma errors_are_caught_and_logged_witness :
  let run := timesnap 0 (withLog scenarioA) fullCapturer
               (rejectingAt 15 "Protocol error"%string) in
  tryBody 0 (withLog scenarioA) fullCapturer
    (rejectingAt 15 "Protocol error"%string) []
  = (firstn 16 (fst run), Thrown "Protocol error"%string)
  /\ run = (firstn 16 (fst run)
            ++ logged (withLog scenarioA) (MsgError "Protocol error"%string),
            Returned tt).
Proof.
  intros run.
  apply (proj2 (proj2 (errors_are_caught_and_logged 0 (withLog scenarioA)
                         fullCapturer
                         (rejectingAt 15 "Protocol error"%string)))
           15%nat (CaptureFrame 2 (lit 3)) "Protocol error"%string).
  - vm_compute. number_eq.
  - reflexivity.
  - reflexivity.
Defined.

(** C9, as stated, fails on the release of resources: when the capture of
    frame 2 is rejected, the run logs the error and resolves, and neither
    [afterCapture] nor [browser.close] is called, although the browser was
    acquired and frame 1 was captured. *)
Lemma rejected_capture_leaves_the_browser_open :
  let run := timesnap 0 (withLog scenarioA) fullCapturer
               (rejectingAt 15 "Protocol error"%string) in
  fst run
  = [ GetBrowser; NewPage; Log false (MsgCaptureMode Screenshot);
      OverwriteRandom; OverwriteTime; InitializePageUtils;
      InitializeMediaTimeHandler; Log false MsgGoingTo; Goto;
      Log false MsgPageLoaded; StartWait 0; BeforeCapture;
      GoToTimeAndAnimateForCapture 0; CaptureFrame 1 (lit 3);
      GoToTimeAndAnimateForCapture (lit 100); CaptureFrame 2 (lit 3);
      Log false (MsgError "Protocol error"%string) ]
  /\ snd run = Returned tt
  /\ ~ In BrowserClose (fst run)
  /\ ~ In AfterCapture (fst run).
Proof.
  assert (E : fst (timesnap 0 (withLog scenarioA) fullCapturer
                     (rejectingAt 15 "Protocol error"%string))
              = [ GetBrowser; NewPage; Log false (MsgCaptureMode Screenshot);
                  OverwriteRandom; OverwriteTime; InitializePageUtils;
                  InitializeMediaTimeHandler; Log false MsgGoingTo; Goto;
                  Log false MsgPageLoaded; StartWait 0; BeforeCapture;
                  GoToTimeAndAnimateForCapture 0; CaptureFrame 1 (lit 3);
                  GoToTimeAndAnimateForCapture (lit 100);
                  CaptureFrame 2 (lit 3);
                  Log false (MsgError "Protocol error"%string) ])
    by (vm_compute; number_eq).
  intros run. unfold run. rewrite E.
  split; [reflexivity|]. split; [reflexivity|].
  split; intros H; cbn in H; intuition discriminate.
Qed.

(** ** The clock during the marker loop *)

Lemma advanceTargets_app l1 l2 :
  advanceTargets (l1 ++ l2) = advanceTargets l1 ++ advanceTargets l2.
Proof. induction l1 as [|[] l1 IH]; cbn; rewrite ?IH; easy. Qed.

Lemma advanceTargets_filter l :
  advanceTargets (filter is_advance l) = advanceTargets l.
Proof. induction l as [|[] l IH]; cbn; rewrite ?IH; easy. Qed.

Lemma advanceTargets_markers ms :
  advanceTargets (map advanceEvent ms) = map time ms.
Proof.
  induction ms as [|m ms IH]; [reflexivity|].
  cbn [map]. unfold advanceEvent at 1.
  destruct (type m); cbn [advanceTargets]; now rewrite IH.
Qed.

Lemma StronglySorted_firstn {A} (R : A -> A -> Prop) l :
  StronglySorted R l -> forall k, StronglySorted R (firstn k l).
Proof.
  induction 1 as [|x l Hl IH Hx]; intros [|k]; cbn [firstn];
    try constructor; auto.
  apply Forall_forall. intros y Hy. rewrite Forall_forall in Hx.
  apply Hx. rewrite <- (firstn_skipn k l). apply in_or_app. now left.
Qed.

Lemma sorted_times ms :
  StronglySorted marker_lt ms -> StronglySorted Qcle (map time ms).
Proof.
  induction 1 as [|m ms Hms IH Hm]; cbn [map]; constructor; auto.
  apply Forall_forall. intros t Ht. apply in_map_iff in Ht.
  destruct Ht as (m' & <- & Hm'). rewrite Forall_forall in Hm.
  destruct (Hm m' Hm') as [H|[H _]].
  - now apply Qclt_le_weak.
  - rewrite H. apply Qcle_refl.
Qed.

(** The advances that the marker loop issues for a timeline never go back:
    a regression can only come from a priming advance before the loop. *)
Lemma marker_loop_targets_ascend c cap browserTime h tr :
  exists new,
    fst (runMarkers c cap (timeline c browserTime) h tr) = tr ++ new
    /\ StronglySorted Qcle (advanceTargets new).
Proof.
  destruct (runMarkers_prefix c cap (timeline c browserTime) h tr)
    as (k & new & E & F).
  exists new. split; [exact E|].
  rewrite <- advanceTargets_filter, F, advanceTargets_markers.
  rewrite <- firstn_map. apply StronglySorted_firstn.
  apply sorted_times, timeline_sorted.
Qed.

(** C1 on the input where the code breaks it.  In the run of [delayedStart]
    (frames=2, fps=10, start=1, captureWhileSelectorExists set) where the
    element appears at the third query, priming advances the clock to
    100 ms; the early animate-only marker is still at 20 ms, so the marker
    loop then asks for 20 ms, before the captures at 1100 and 1200 ms. *)
Theorem clock_regresses_after_priming :
  let run := timesnap 5 delayedStart frameCapturer appearsAtThird in
  advanceTargets (fst run) = [lit 100; lit 20; lit 1100; lit 1200]
  /\ snd run = Returned tt
  /\ lit 20 < lit 100.
Proof.
  vm_compute. repeat split; number_eq.
Qed.

(** * What a run may record *)

Section EmitsOnly.

Variable P : event -> bool.

Lemma emitsOnly_ret {A} (a : A) : emitsOnly P (ret a).
Proof. intros h tr. exists []. cbn. now rewrite app_nil_r. Qed.

Lemma emitsOnly_throw {A} e : emitsOnly P (@throw A e).
Proof. intros h tr. exists []. cbn. now rewrite app_nil_r. Qed.

Lemma emitsOnly_pending {A} : emitsOnly P (@pending A).
Proof. intros h tr. exists []. cbn. now rewrite app_nil_r. Qed.

Lemma emitsOnly_call e : P e = true -> emitsOnly P (call e).
Proof.
  intros He h tr. exists [e]. unfold call.
  destruct (rejects h (List.length tr)); cbn; now rewrite He.
Qed.

Lemma emitsOnly_querySelector s :
  P (QuerySelector s) = true -> emitsOnly P (querySelector s).
Proof.
  intros He h tr. exists [QuerySelector s]. unfold querySelector.
  destruct (rejects h (List.length tr)); cbn; now rewrite He.
Qed.

Lemma emitsOnly_log c m :
  forallb P (logged c m) = true -> emitsOnly P (log c m).
Proof. intros He h tr. exists (logged c m). now rewrite log_eq. Qed.

Lemma emitsOnly_startWait ms :
  P (StartWait ms) = true ->
  emitsOnly P (fun _ tr => (tr ++ [StartWait ms], Returned tt)).
Proof. intros He h tr. exists [StartWait ms]. cbn. now rewrite He. Qed.

Lemma emitsOnly_bind {A B} (m : M A) (k : A -> M B) :
  emitsOnly P m -> (forall a, emitsOnly P (k a)) -> emitsOnly P (bind m k).
Proof.
  intros Hm Hk h tr. unfold bind.
  destruct (Hm h tr) as (new1 & E1 & F1).
  destruct (m h tr) as [tr1 [a|e|]]; cbn [fst] in E1; subst tr1.
  - destruct (Hk a h (tr ++ new1)) as (new2 & E2 & F2).
    exists (new1 ++ new2). rewrite E2, app_assoc, forallb_app, F1, F2.
    now split.
  - now exists new1.
  - now exists new1.
Qed.

Lemma emitsOnly_when b m :
  (b = true -> emitsOnly P m) -> emitsOnly P (when b m).
Proof. destruct b; intros H; [now apply H|apply emitsOnly_ret]. Qed.

Lemma emitsOnly_frameCountOf m : emitsOnly P (frameCountOf m).
Proof.
  unfold frameCountOf. destruct (data m);
    [apply emitsOnly_ret|apply emitsOnly_throw].
Qed.

Lemma emitsOnly_catchLog c body :
  emitsOnly P body ->
  (forall e, forallb P (logged c (MsgError e)) = true) ->
  emitsOnly P (catchLog c body).
Proof.
  intros Hb Hl h tr. unfold catchLog.
  destruct (Hb h tr) as (new & E & F).
  destruct (body h tr) as [tr1 [a|e|]]; cbn [fst] in E; subst tr1.
  - now exists new.
  - exists (new ++ logged c (MsgError e)).
    rewrite log_eq. cbn [fst]. rewrite app_assoc, forallb_app, F, Hl.
    now split.
  - now exists new.
Qed.

End EmitsOnly.

Lemma emitsOnly_weaken {A} (P Q : event -> bool) (m : M A) :
  (forall e, P e = true -> Q e = true) -> emitsOnly P m -> emitsOnly Q m.
Proof.
  intros HPQ Hm h tr. destruct (Hm h tr) as (new & E & F).
  exists new. split; [exact E|].
  apply forallb_forall. intros e He. apply HPQ.
  rewrite forallb_forall in F. now apply F.
Qed.

Section Phases.

Variables (c : config) (cap : capturer).

Lemma eqb_refl_true x : eqb x x = true.
Proof. now apply eqb_eq. Qed.

Lemma initEvent_logged m : forallb (initEvent c cap) (logged c m) = true.
Proof.
  unfold logged. destruct (cfg_quiet c) eqn:Q; [reflexivity|].
  cbn. rewrite Q. now destruct (cfg_logToStdErr c).
Qed.

Lemma loopEvent_logged m : forallb (loopEvent c cap) (logged c m) = true.
Proof.
  unfold logged. destruct (cfg_quiet c) eqn:Q; [reflexivity|].
  cbn. rewrite Q. now destruct (cfg_logToStdErr c).
Qed.

(** Splits a sequence of binds and closes the steps. *)
Ltac emit_steps :=
  repeat first
    [ apply emitsOnly_bind; [|intros ?]
    | apply emitsOnly_ret
    | apply emitsOnly_frameCountOf
    | apply emitsOnly_log; first [apply initEvent_logged
                                 |apply loopEvent_logged]
    | apply emitsOnly_when; intros ?
    | apply emitsOnly_call; cbn [initEvent loopEvent];
      rewrite ?eqb_refl_true, ?andb_true_r; solve [auto]
    | apply emitsOnly_startWait; cbn [initEvent]; apply eqb_refl_true ].

Lemma initialize_emits : emitsOnly (initEvent c cap) (initialize c cap).
Proof. unfold initialize. emit_steps. Qed.

Lemma querySelector_emits s :
  truthy_string (cfg_captureWhileSelectorExists c) = Some s ->
  emitsOnly (loopEvent c cap) (querySelector s).
Proof.
  intros Hs. apply emitsOnly_querySelector. cbn [loopEvent].
  rewrite Hs. apply String.eqb_refl.
Qed.

Lemma primingLoop_emits fuel s :
  truthy_string (cfg_captureWhileSelectorExists c) = Some s ->
  forall t, emitsOnly (loopEvent c cap) (primingLoop fuel c s t).
Proof.
  intros Hs. induction fuel as [|fuel IH]; intros t; cbn [primingLoop].
  - apply emitsOnly_pending.
  - apply emitsOnly_bind; [now apply querySelector_emits|].
    intros found. destruct (negb found); [|apply emitsOnly_ret].
    apply emitsOnly_bind; [now apply emitsOnly_call|]. intros _. apply IH.
Qed.

Lemma priming_emits fuel : emitsOnly (loopEvent c cap) (priming fuel c).
Proof.
  unfold priming.
  destruct (truthy_string (cfg_captureWhileSelectorExists c)) as [s|] eqn:Hs;
    [|apply emitsOnly_ret].
  apply emitsOnly_bind; [now apply querySelector_emits|].
  intros found. destruct (negb found); [|apply emitsOnly_ret].
  now apply primingLoop_emits.
Qed.

Lemma runMarkers_emits ms : emitsOnly (loopEvent c cap) (runMarkers c cap ms).
Proof.
  induction ms as [|m ms IH]; cbn [runMarkers]; [apply emitsOnly_ret|].
  destruct (type m).
  - apply emitsOnly_bind; [now apply emitsOnly_call|]. intros _.
    apply emitsOnly_bind.
    + destruct (truthy_string (cfg_captureWhileSelectorExists c))
        as [s|] eqn:Hs; [|apply emitsOnly_ret].
      apply emitsOnly_bind; [now apply querySelector_emits|].
      intros found. apply emitsOnly_ret.
    + intros stop. destruct stop; [apply emitsOnly_ret|].
      emit_steps; try exact IH.
  - apply emitsOnly_bind; [now apply emitsOnly_call|]. intros _. exact IH.
Qed.

Lemma initEvent_mayEmit e : initEvent c cap e = true -> mayEmit c cap e = true.
Proof. unfold mayEmit. now intros ->. Qed.

Lemma loopEvent_mayEmit e : loopEvent c cap e = true -> mayEmit c cap e = true.
Proof. unfold mayEmit. intros ->. now rewrite orb_true_r. Qed.

Lemma mayEmit_logged m : forallb (mayEmit c cap) (logged c m) = true.
Proof.
  apply forallb_forall. intros e He. apply initEvent_mayEmit.
  pose proof (initEvent_logged m) as H. rewrite forallb_forall in H.
  now apply H.
Qed.

Lemma tryBody_emits fuel : emitsOnly (mayEmit c cap) (tryBody fuel c cap).
Proof.
  unfold tryBody, captureRun.
  apply emitsOnly_bind.
  { eapply emitsOnly_weaken; [apply initEvent_mayEmit|apply initialize_emits]. }
  intros _. apply emitsOnly_bind.
  { eapply emitsOnly_weaken; [apply loopEvent_mayEmit|apply priming_emits]. }
  intros browserTime. apply emitsOnly_bind.
  { eapply emitsOnly_weaken; [apply loopEvent_mayEmit|apply runMarkers_emits]. }
  intros _. apply emitsOnly_bind.
  { apply emitsOnly_log, mayEmit_logged. }
  intros _. apply emitsOnly_bind.
  { apply emitsOnly_when. intros Ha. apply emitsOnly_call.
    unfold mayEmit. cbn. exact Ha. }
  intros _. now apply emitsOnly_call.
Qed.

Lemma timesnap_emits fuel h :
  forallb (mayEmit c cap) (fst (timesnap fuel c cap h)) = true.
Proof.
  unfold timesnap.
  destruct (emitsOnly_catchLog (mayEmit c cap) c (tryBody fuel c cap)
              (tryBody_emits fuel) (fun e => mayEmit_logged (MsgError e))
              h [])
    as (new & E & F).
  now rewrite E.
Qed.

End Phases.

(** * Further properties of the resolution and of the builder *)






Lemma framesOf_app l1 l2 : framesOf (l1 ++ l2) = framesOf l1 ++ framesOf l2.
Proof. unfold framesOf. apply flat_map_app. Qed.

Lemma framesOf_captureMarkers c browserTime l :
  framesOf (map (captureMarker c browserTime) l) = l.
Proof.
  unfold framesOf. induction l as [|i l IH]; [reflexivity|].
  cbn. now rewrite IH.
Qed.

Lemma framesOf_animateMarkers k l : framesOf (animateMarkers k l) = [].
Proof. revert k. induction l as [|t l IH]; intros k; cbn; auto. Qed.

Lemma framesOf_buildMarkers c browserTime :
  framesOf (buildMarkers c browserTime) = range (frameCount c).
Proof.
  rewrite buildMarkers_eq, framesOf_app, framesOf_captureMarkers,
    framesOf_animateMarkers. apply app_nil_r.
Qed.

(** The capture loop makes a marker for exactly the whole numbers [i] with
    [1 <= i <= framesToCapture], in that order, also when the frame count
    is no whole number; a frame count below 1 gives no capture marker. *)
Theorem capture_loop_bounds (c : config) (browserTime : number) :
  framesOf (buildMarkers c browserTime)
  = range (Z.to_nat (Qfloor (framesToCapture c)))
  /\ (forall i, In i (framesOf (buildMarkers c browserTime))
                <-> (1 <= i)%Z /\ of_Z i <= framesToCapture c)
  /\ (framesToCapture c < 1 ->
      filter is_capture (buildMarkers c browserTime) = []).
Proof.
  split; [apply framesOf_buildMarkers|]. split.
  - intros i. rewrite framesOf_buildMarkers, in_range, of_Z_le_floor.
    unfold frameCount. lia.
  - intros H. rewrite buildMarkers_eq, filter_app, captureMarker_capture,
      animateMarkers_not_capture, app_nil_r.
    replace (frameCount c) with O; [reflexivity|].
    unfold frameCount.
    assert (Hf : (Qfloor (framesToCapture c) < 1)%Z); [|lia].
    apply Z.nle_gt. intros Hge. apply of_Z_le_floor in Hge.
    rewrite of_Z_1 in Hge. revert H. now apply Qcle_not_lt.
Qed.

Lemma capture_loop_bounds_witness :
  filter is_capture (buildMarkers halfFrame 0) = [].
Proof.
  apply (proj2 (proj2 (capture_loop_bounds halfFrame 0))).
  reflexivity.
Defined.

(** ** The step between two markers of a subdivided gap *)






(** ** The order of the capture markers after the sort *)

Lemma sorted_perm_unique (l1 : list marker) :
  forall l2,
    StronglySorted marker_lt l1 -> StronglySorted marker_lt l2 ->
    Permutation l1 l2 -> l1 = l2.
Proof.
  induction l1 as [|a l1 IH]; intros l2 H1 H2 Hp.
  - apply Permutation_nil in Hp. now subst.
  - destruct l2 as [|b l2].
    { symmetry in Hp. now apply Permutation_nil in Hp. }
    inversion H1 as [|? ? H1' Ha]; subst.
    inversion H2 as [|? ? H2' Hb]; subst.
    assert (a = b).
    { assert (Hain : In a (b :: l2))
        by (eapply Permutation_in; [exact Hp|now left]).
      assert (Hbin : In b (a :: l1))
        by (eapply Permutation_in; [symmetry; exact Hp|now left]).
      destruct Hain as [->|Hain]; [reflexivity|].
      destruct Hbin as [->|Hbin]; [reflexivity|].
      rewrite Forall_forall in Ha, Hb.
      exfalso. apply (marker_lt_asym a b); auto. }
    subst b. f_equal. apply IH; try assumption.
    now apply Permutation_cons_inv in Hp.
Qed.

Lemma StronglySorted_filter {A} (R : A -> A -> Prop) (f : A -> bool) l :
  StronglySorted R l -> StronglySorted R (filter f l).
Proof.
  induction 1 as [|x l Hl IH Hx]; cbn [filter]; [constructor|].
  destruct (f x); [|exact IH].
  constructor; [exact IH|].
  apply Forall_forall. intros y Hy. apply filter_In in Hy.
  rewrite Forall_forall in Hx. now apply Hx.
Qed.

Lemma Permutation_filter_same {A} (f : A -> bool) l1 l2 :
  Permutation l1 l2 -> Permutation (filter f l1) (filter f l2).
Proof.
  induction 1 as [|x l1 l2 Hp IH|x y l|l1 l2 l3 H1 IH1 H2 IH2]; cbn [filter].
  - constructor.
  - destruct (f x); [now constructor|exact IH].
  - destruct (f x), (f y); try reflexivity. apply perm_swap.
  - now transitivity (filter f l2).
Qed.

Lemma sorted_map_seq {A} (R : A -> A -> Prop) (g : nat -> A) n :
  forall s,
    (forall i j, (s <= i)%nat -> (i < j)%nat -> (j < s + n)%nat ->
                 R (g i) (g j)) ->
    StronglySorted R (map g (seq s n)).
Proof.
  induction n as [|n IH]; intros s Hg; cbn [seq map]; constructor.
  - apply IH. intros i j Hi Hij Hj. apply Hg; lia.
  - apply Forall_forall. intros y Hy. apply in_map_iff in Hy.
    destruct Hy as (j & <- & Hj). apply in_seq in Hj. apply Hg; lia.
Qed.

Lemma captureMarkers_sorted c browserTime n :
  ascending (fun i => frameNumToTime c i (framesToCapture c)) n ->
  StronglySorted marker_lt (map (captureMarker c browserTime) (range n)).
Proof.
  intros Hasc. unfold range. rewrite map_map. apply sorted_map_seq.
  intros i j Hi Hij Hj. unfold marker_lt, captureMarker. cbn [time id].
  assert (Hle : frameNumToTime c (Z.of_nat i) (framesToCapture c)
                <= frameNumToTime c (Z.of_nat j) (framesToCapture c))
    by (apply Hasc; lia).
  destruct (Qcle_lt_or_eq _ _ Hle) as [Hlt|Heq].
  - left. to_Q. lra.
  - right. split; [now rewrite Heq|lia].
Qed.

Lemma framesOf_filter ms : framesOf (filter is_capture ms) = framesOf ms.
Proof.
  induction ms as [|m ms IH]; [reflexivity|].
  cbn [filter]. unfold is_capture at 1.
  change (m :: ms) with ([m] ++ ms). rewrite (framesOf_app [m] ms).
  destruct (type m) eqn:T.
  - change (m :: filter is_capture ms) with ([m] ++ filter is_capture ms).
    now rewrite framesOf_app, IH.
  - rewrite IH. unfold framesOf at 2. cbn [flat_map]. now rewrite T.
Qed.

Lemma capture_order_of_timeline (c : config) (browserTime : number) :
  ascending (fun i => frameNumToTime c i (framesToCapture c)) (frameCount c) ->
  filter is_capture (timeline c browserTime)
  = map (captureMarker c browserTime) (range (frameCount c))
  /\ framesOf (timeline c browserTime) = range (frameCount c).
Proof.
  intros Hasc.
  assert (E : filter is_capture (timeline c browserTime)
              = map (captureMarker c browserTime) (range (frameCount c))).
  { apply sorted_perm_unique.
    - apply StronglySorted_filter, timeline_sorted.
    - now apply captureMarkers_sorted.
    - transitivity (filter is_capture (buildMarkers c browserTime)).
      + apply Permutation_filter_same. apply sortMarkers_perm.
      + rewrite buildMarkers_eq, filter_app, captureMarker_capture,
          animateMarkers_not_capture, app_nil_r. reflexivity. }
  split; [exact E|].
  rewrite <- (framesOf_captureMarkers c browserTime (range (frameCount c))).
  rewrite <- E. symmetry. apply framesOf_filter.
Qed.

(** When the times of [frameNumToTime] do not go back as the frame number
    grows, the sort leaves the capture markers in the order of their frame
    numbers: the timeline holds the frames 1, 2, ..., in that order, with
    the animate-only markers in between. *)
Theorem ascending_mapping_keeps_frame_order (c : config)
  (browserTime : number) :
  ascending (fun i => frameNumToTime c i (framesToCapture c)) (frameCount c) ->
  filter is_capture (timeline c browserTime)
  = map (captureMarker c browserTime) (range (frameCount c))
  /\ framesOf (timeline c browserTime) = range (frameCount c).
Proof. apply capture_order_of_timeline. Qed.

(** The default mapping with a positive rate is ascending. *)
Lemma default_mapping_ascending c n :
  cfg_frameNumToTime c = None -> 0 < fps c ->
  ascending (fun i => frameNumToTime c i (framesToCapture c)) n.
Proof.
  intros Hf Hfps i j Hi Hij Hj. unfold frameNumToTime. rewrite Hf.
  assert (Hd : 0 < frameDuration c).
  { unfold frameDuration. to_Q. change (this 0) with 0%Q in *.
    apply Qlt_shift_div_l; lra. }
  assert (Hz : of_Z i <= of_Z j) by (now apply of_Z_le).
  to_Q. change (this 0) with 0%Q in *. change (this 1) with 1%Q.
  apply Qmult_le_compat_r; lra.
Qed.

Lemma ascending_mapping_keeps_frame_order_witness :
  filter is_capture (timeline delayedSubdivided 0)
  = map (captureMarker delayedSubdivided 0)
        (range (frameCount delayedSubdivided))
  /\ framesOf (timeline delayedSubdivided 0)
     = range (frameCount delayedSubdivided).
Proof.
  apply (ascending_mapping_keeps_frame_order delayedSubdivided 0).
  apply default_mapping_ascending; reflexivity.
Defined.

(** * Further properties of whole runs *)

Section WholeRun.

Variables (fuel : nat) (c : config) (cap : capturer) (h : host).

(** A run records only what the configuration and the capturer ask for:
    the optional calls ([setViewport], [preparePage], the hooks of the
    capturer, [preparePageForScreenshot]) only when they are there, the
    hooks with [framesToCapture] as the total, queries only for the
    configured selector, and the wait of [startDelay]. *)
Theorem optional_calls_need_their_option :
  let tr := fst (timesnap fuel c cap h) in
  (In SetViewport tr -> cfg_viewport c = true)
  /\ (In PreparePage tr -> cfg_preparePage c = true)
  /\ (In BeforeCapture tr -> beforeCapture cap = true)
  /\ (In AfterCapture tr -> afterCapture cap = true)
  /\ (forall i total,
        In (PreparePageForScreenshot i total) tr ->
        cfg_preparePageForScreenshot c = true /\ total = framesToCapture c)
  /\ (forall i total,
        In (CaptureFrame i total) tr ->
        capture cap = true /\ total = framesToCapture c)
  /\ (forall s,
        In (QuerySelector s) tr ->
        truthy_string (cfg_captureWhileSelectorExists c) = Some s)
  /\ (forall ms, In (StartWait ms) tr -> ms = startWaitMs c).
Proof.
  intros tr. pose proof (timesnap_emits c cap fuel h) as H.
  rewrite forallb_forall in H. fold tr in H.
  split; [|split; [|split; [|split; [|split; [|split; [|split]]]]]].
  - intros Hin. apply H in Hin. unfold mayEmit in Hin. cbn in Hin. now rewrite ?orb_false_r in Hin.
  - intros Hin. apply H in Hin. unfold mayEmit in Hin. cbn in Hin. now rewrite ?orb_false_r in Hin.
  - intros Hin. apply H in Hin. unfold mayEmit in Hin. cbn in Hin. now rewrite ?orb_false_r in Hin.
  - intros Hin. apply H in Hin. unfold mayEmit in Hin. cbn in Hin. exact Hin.
  - intros i total Hin. apply H in Hin. unfold mayEmit in Hin. cbn in Hin.
    rewrite ?orb_false_r in Hin. apply andb_prop in Hin.
    destruct Hin as [H1 H2]. split; [exact H1|now apply eqb_eq].
  - intros i total Hin. apply H in Hin. unfold mayEmit in Hin. cbn in Hin.
    rewrite ?orb_false_r in Hin. apply andb_prop in Hin.
    destruct Hin as [H1 H2]. split; [exact H1|now apply eqb_eq].
  - intros s Hin. apply H in Hin. unfold mayEmit in Hin. cbn in Hin.
    rewrite ?orb_false_r in Hin.
    destruct (truthy_string (cfg_captureWhileSelectorExists c)) as [s'|];
      [|discriminate].
    apply String.eqb_eq in Hin. now subst.
  - intros ms Hin. apply H in Hin. unfold mayEmit in Hin. cbn in Hin.
    rewrite ?orb_false_r in Hin. now apply eqb_eq.
Qed.

(** The log follows the options: with [quiet] nothing is written at all,
    and every line that is written goes to stderr when [logToStdErr] is
    set and to stdout when it is not. *)
Theorem log_lines_follow_the_options :
  (cfg_quiet c = true -> forallb not_log (fst (timesnap fuel c cap h)) = true)
  /\ forallb (logs_to (cfg_logToStdErr c)) (fst (timesnap fuel c cap h))
     = true.
Proof.
  pose proof (timesnap_emits c cap fuel h) as H.
  rewrite forallb_forall in H. split.
  - intros Q. apply forallb_forall. intros e He. apply H in He.
    destruct e; try reflexivity. unfold mayEmit in He. cbn in He.
    now rewrite Q in He.
  - apply forallb_forall. intros e He. apply H in He.
    destruct e; try reflexivity. unfold mayEmit in He. cbn in He |- *.
    rewrite orb_false_r, orb_diag in He. now apply andb_prop in He.
Qed.

End WholeRun.

Lemma optional_calls_need_their_option_witness :
  capture frameCapturer = true /\ lit 3 = framesToCapture scenarioA.
Proof.
  apply (proj1 (proj2 (proj2 (proj2 (proj2 (proj2
           (optional_calls_need_their_option 0 scenarioA frameCapturer
              alwaysPresent)))))) 1%Z (lit 3)).
  vm_compute. do 9 right. left. number_eq.
Defined.

Lemma log_lines_follow_the_options_witness :
  forallb not_log (fst (timesnap 0 scenarioA frameCapturer alwaysPresent))
  = true.
Proof.
  apply (proj1 (log_lines_follow_the_options 0 scenarioA frameCapturer
                  alwaysPresent)).
  reflexivity.
Defined.

(** ** [browser.close] comes last *)

Lemma endsWithClose_bind {A B} (m : M A) (k : A -> M B) :
  emitsOnly not_close m -> (forall a, endsWithClose (k a)) ->
  endsWithClose (bind m k).
Proof.
  intros Hm Hk h tr. unfold bind.
  destruct (Hm h tr) as (new1 & E1 & F1).
  destruct (m h tr) as [tr1 [a|e|]]; cbn [fst] in E1; subst tr1.
  - destruct (Hk a h (tr ++ new1)) as (new2 & E2 & [F2|(body & -> & F2)]).
    + exists (new1 ++ new2). rewrite E2, app_assoc. split; [reflexivity|].
      left. now rewrite forallb_app, F1, F2.
    + exists (new1 ++ body ++ [BrowserClose]). rewrite E2.
      split; [now rewrite <- !app_assoc|]. right. exists (new1 ++ body).
      rewrite forallb_app, F1, F2. split; [now rewrite <- app_assoc|easy].
  - exists new1. split; [reflexivity|]. now left.
  - exists new1. split; [reflexivity|]. now left.
Qed.

Lemma endsWithClose_close : endsWithClose (call BrowserClose).
Proof.
  intros h tr. exists [BrowserClose]. unfold call.
  destruct (rejects h (List.length tr)); cbn [fst];
    (split; [reflexivity|]); right; now exists [].
Qed.

Lemma not_close_logged c m : forallb not_close (logged c m) = true.
Proof. unfold logged. now destruct (cfg_quiet c). Qed.

Lemma not_call_logged c m : forallb not_call (logged c m) = true.
Proof. unfold logged. now destruct (cfg_quiet c). Qed.

Lemma tryBody_endsWithClose fuel c cap : endsWithClose (tryBody fuel c cap).
Proof.
  unfold tryBody, captureRun.
  apply endsWithClose_bind.
  { eapply emitsOnly_weaken; [|apply initialize_emits].
    intros e. now destruct e. }
  intros _. apply endsWithClose_bind.
  { eapply emitsOnly_weaken; [|apply (priming_emits c cap)].
    intros e. now destruct e. }
  intros browserTime. apply endsWithClose_bind.
  { eapply emitsOnly_weaken; [|apply (runMarkers_emits c cap)].
    intros e. now destruct e. }
  intros _. apply endsWithClose_bind.
  { apply emitsOnly_log, not_close_logged. }
  intros _. apply endsWithClose_bind.
  { apply emitsOnly_when. intros _. now apply emitsOnly_call. }
  intros _. apply endsWithClose_close.
Qed.

(** A list splits in one way only around the one [BrowserClose] it holds. *)
Lemma split_at_close a :
  forall b pre post,
    forallb not_close a = true -> forallb not_close b = true ->
    a ++ BrowserClose :: b = pre ++ BrowserClose :: post ->
    pre = a /\ post = b.
Proof.
  induction a as [|x a IH]; intros b pre post Ha Hb E.
  - destruct pre as [|y pre]; cbn [app] in E.
    + injection E as <-. now split.
    + injection E as <- ->. rewrite forallb_app in Hb.
      apply andb_prop in Hb. destruct Hb as [_ Hb]. discriminate.
  - cbn [forallb] in Ha. apply andb_prop in Ha. destruct Ha as [Hx Ha].
    destruct pre as [|y pre]; cbn [app] in E.
    + injection E as -> _. discriminate.
    + injection E as -> E. destruct (IH b pre post Ha Hb E) as [-> ->].
      now split.
Qed.

Lemma close_split new tail pre post :
  (forallb not_close new = true
   \/ exists body, new = body ++ [BrowserClose]
                   /\ forallb not_close body = true) ->
  forallb not_close tail = true -> forallb not_call tail = true ->
  new ++ tail = pre ++ BrowserClose :: post ->
  forallb not_close pre = true
  /\ forallb not_close post = true
  /\ forallb not_call post = true.
Proof.
  intros Hnew Hc Hl E. destruct Hnew as [Hnone|(body & -> & Hbody)].
  - exfalso.
    assert (Hall : forallb not_close (new ++ tail) = true)
      by (now rewrite forallb_app, Hnone, Hc).
    rewrite E, forallb_app in Hall. apply andb_prop in Hall.
    destruct Hall as [_ Hall]. discriminate.
  - rewrite <- app_assoc in E. cbn [app] in E.
    destruct (split_at_close body tail pre post Hbody Hc E) as [-> ->].
    auto.
Qed.

(** [browser.close] is called at most once in a run, and it is the last
    call: wherever it stands in the trace, there is none before it, and
    after it there is at most the log line of its own error. *)
Theorem browser_close_is_the_last_call (fuel : nat) (c : config)
  (cap : capturer) (h : host) (pre post : list event) :
  fst (timesnap fuel c cap h) = pre ++ BrowserClose :: post ->
  forallb not_close pre = true
  /\ forallb not_close post = true
  /\ forallb not_call post = true.
Proof.
  unfold timesnap, catchLog.
  destruct (tryBody_endsWithClose fuel c cap h []) as (new & E & Hnew).
  cbn [app] in E.
  destruct (tryBody fuel c cap h []) as [tr out]. cbn [fst] in E. subst tr.
  destruct out as [[]|e|]; [|rewrite log_eq|]; cbn [fst]; intros E.
  - apply (close_split new [] pre post); auto. now rewrite app_nil_r.
  - apply (close_split new (logged c (MsgError e)) pre post); auto.
    + apply not_close_logged.
    + apply not_call_logged.
  - apply (close_split new [] pre post); auto. now rewrite app_nil_r.
Qed.

Lemma browser_close_is_the_last_call_witness :
  forallb not_close
    [GetBrowser; NewPage; OverwriteRandom; OverwriteTime;
     InitializePageUtils; InitializeMediaTimeHandler; Goto; StartWait 0]
  = true
  /\ forallb not_close [] = true
  /\ forallb not_call [] = true.
Proof.
  apply (browser_close_is_the_last_call 0 halfFrame frameCapturer
           alwaysPresent).
  vm_compute. number_eq.
Defined.

(** ** Runs in which nothing goes wrong *)

Lemma capturedFrames_app l1 l2 :
  capturedFrames (l1 ++ l2) = capturedFrames l1 ++ capturedFrames l2.
Proof. induction l1 as [|[] l1 IH]; cbn; rewrite ?IH; easy. Qed.

Lemma capturedFrames_quiet l :
  forallb not_frame_call l = true -> capturedFrames l = [].
Proof.
  induction l as [|e l IH]; [reflexivity|]. cbn [forallb].
  intros H. apply andb_prop in H. destruct H as [He Hl].
  destruct e; cbn; auto; discriminate.
Qed.

Lemma advanceTargets_quiet l :
  forallb not_advance l = true -> advanceTargets l = [].
Proof.
  induction l as [|e l IH]; [reflexivity|]. cbn [forallb].
  intros H. apply andb_prop in H. destruct H as [He Hl].
  destruct e; cbn; auto; discriminate.
Qed.

Lemma logged_no_frame_call c m : forallb not_frame_call (logged c m) = true.
Proof. unfold logged. now destruct (cfg_quiet c). Qed.

Lemma logged_not_advance c m : forallb not_advance (logged c m) = true.
Proof. unfold logged. now destruct (cfg_quiet c). Qed.

Lemma framesOf_cons m ms :
  framesOf (m :: ms)
  = match type m with
    | Capture => match data m with Some i => [i] | None => [] end
    | OnlyAnimate => []
    end ++ framesOf ms.
Proof. reflexivity. Qed.

Lemma capturedFrames_markerEvents c cap (o : option string) ms :
  capturedFrames (flat_map (markerEvents c cap o) ms)
  = if capture cap then framesOf ms else [].
Proof.
  induction ms as [|m ms IH]; [now destruct (capture cap)|].
  cbn [flat_map]. rewrite capturedFrames_app, IH.
  rewrite framesOf_cons. unfold markerEvents.
  destruct (type m); [|now destruct (capture cap)].
  rewrite !capturedFrames_app.
  replace (capturedFrames
             match o with Some s => [QuerySelector s] | None => [] end)
    with (@nil Z) by (now destruct o).
  replace (capturedFrames
             (if cfg_preparePageForScreenshot c
              then logged c MsgPreparingForScreenshot
                   ++ match data m with
                      | Some i =>
                          [PreparePageForScreenshot i (framesToCapture c)]
                      | None => []
                      end
                   ++ logged c MsgPagePrepared
              else []))
    with (@nil Z).
  - cbn [capturedFrames app].
    destruct (capture cap), (data m); reflexivity.
  - symmetry. apply capturedFrames_quiet.
    destruct (cfg_preparePageForScreenshot c); [|reflexivity].
    rewrite !forallb_app, !logged_no_frame_call. now destruct (data m).
Qed.

Lemma advanceTargets_markerEvents c cap (o : option string) ms :
  advanceTargets (flat_map (markerEvents c cap o) ms) = map time ms.
Proof.
  induction ms as [|m ms IH]; [reflexivity|].
  cbn [flat_map map]. rewrite advanceTargets_app, IH.
  unfold markerEvents. destruct (type m); [|reflexivity].
  cbn [app advanceTargets]. f_equal.
  replace (advanceTargets _) with (@nil Qc); [reflexivity|].
  symmetry. apply advanceTargets_quiet.
  rewrite !forallb_app.
  replace (forallb not_advance
             match o with Some s => [QuerySelector s] | None => [] end)
    with true by (now destruct o).
  destruct (cfg_preparePageForScreenshot c), (capture cap), (data m);
    rewrite ?forallb_app, ?logged_not_advance; reflexivity.
Qed.

Section Smooth.

Variables (c : config) (cap : capturer) (h : host).
Hypothesis accepts : neverRejects h.

Let sel := truthy_string (cfg_captureWhileSelectorExists c).

Hypothesis stays : sel = None \/ alwaysFinds h.

(** One marker whose capture goes ahead. *)
Lemma runMarkers_goes_on m rest tr :
  (type m = Capture -> exists i, data m = Some i) ->
  runMarkers c cap (m :: rest) h tr
  = runMarkers c cap rest h (tr ++ markerEvents c cap sel m).
Proof.
  intros Hdata. destruct (type m) eqn:Tm.
  - destruct (Hdata eq_refl) as [i Hi].
    destruct sel as [s|] eqn:Hs; unfold sel in Hs.
    + destruct stays as [|Hfinds]; [discriminate|].
      rewrite <- Hs.
      assert (Hs' : Some s = truthy_string (cfg_captureWhileSelectorExists c))
        by (now rewrite Hs).
      rewrite Hs.
      now apply (runMarkers_capture c cap h accepts s Hs m rest tr i).
    + cbn [runMarkers]. unfold markerEvents. rewrite Tm, Hi, Hs.
      unfold bind at 1. rewrite (call_accepted h accepts).
      unfold bind at 1. unfold ret at 1. cbn beta iota.
      unfold frameCountOf. rewrite Hi.
      destruct (cfg_preparePageForScreenshot c), (capture cap);
        unfold when, bind, ret;
        repeat first [rewrite log_eq | rewrite (call_accepted h accepts)
                     | progress cbn beta iota];
        f_equal; rewrite <- ?app_assoc; cbn [app]; rewrite ?app_nil_r;
        reflexivity.
  - cbn [runMarkers]. unfold markerEvents. rewrite Tm.
    unfold bind. now rewrite (call_accepted h accepts).
Qed.

Lemma runMarkers_all ms :
  forall tr,
    framed ms ->
    runMarkers c cap ms h tr
    = (tr ++ flat_map (markerEvents c cap sel) ms, Returned tt).
Proof.
  induction ms as [|m ms IH]; intros tr Hf.
  - cbn. now rewrite app_nil_r.
  - inversion Hf as [|? ? Hm Hms]; subst.
    rewrite runMarkers_goes_on by assumption.
    rewrite IH by assumption. cbn [flat_map]. now rewrite <- app_assoc.
Qed.

Lemma priming_skipped fuel tr :
  priming fuel c h tr
  = (tr ++ match sel with Some s => [QuerySelector s] | None => [] end,
     Returned 0).
Proof.
  unfold priming. fold sel. destruct sel as [s|] eqn:Hs.
  - destruct stays as [|Hfinds]; [discriminate|].
    unfold bind. rewrite (querySelector_accepted h accepts), Hfinds.
    reflexivity.
  - unfold ret. now rewrite app_nil_r.
Qed.

End Smooth.

Lemma initializeEvents_no_frame_call c cap :
  forallb not_frame_call (initializeEvents c cap) = true.
Proof.
  unfold initializeEvents, logged.
  destruct (cfg_quiet c), (cfg_viewport c), (cfg_preparePage c),
    (beforeCapture cap); reflexivity.
Qed.

Lemma closingEvents_quiet c cap :
  forallb not_frame_call (closingEvents c cap) = true
  /\ forallb not_advance (closingEvents c cap) = true.
Proof.
  unfold closingEvents, logged.
  destruct (cfg_quiet c), (afterCapture cap); split; reflexivity.
Qed.

(** A run in which no call is rejected and the element, if one is
    configured, is found at every query: the initialisation, the one query
    of priming, every marker of the timeline in full, then the log line,
    [afterCapture] and [browser.close]; the promise resolves.  The clock
    is advanced to the time of each marker of the sorted timeline in turn,
    each capture marker has its frame captured, and with an ascending
    mapping these are the frames 1, 2, ... up to the frame count. *)
Theorem run_without_failure (fuel : nat) (c : config) (cap : capturer)
  (h : host) :
  neverRejects h ->
  truthy_string (cfg_captureWhileSelectorExists c) = None \/ alwaysFinds h ->
  let sel := truthy_string (cfg_captureWhileSelectorExists c) in
  let run := timesnap fuel c cap h in
  run = (initializeEvents c cap
         ++ match sel with Some s => [QuerySelector s] | None => [] end
         ++ flat_map (markerEvents c cap sel) (timeline c 0)
         ++ closingEvents c cap,
         Returned tt)
  /\ advanceTargets (fst run) = map time (timeline c 0)
  /\ (capture cap = true ->
      capturedFrames (fst run) = framesOf (timeline c 0)
      /\ (ascending (fun i => frameNumToTime c i (framesToCapture c))
            (frameCount c) ->
          capturedFrames (fst run) = range (frameCount c))).
Proof.
  intros Hh Hstay sel run.
  assert (E : run
              = (initializeEvents c cap
                 ++ match sel with Some s => [QuerySelector s] | None => [] end
                 ++ flat_map (markerEvents c cap sel) (timeline c 0)
                 ++ closingEvents c cap,
                 Returned tt)).
  { unfold run, timesnap, catchLog, tryBody, captureRun.
    unfold bind at 1. rewrite (initialize_accepted c cap h Hh).
    unfold bind at 1. rewrite (priming_skipped c h Hh Hstay).
    unfold bind at 1.
    rewrite (runMarkers_all c cap h Hh Hstay) by apply timeline_framed.
    unfold bind at 1. rewrite log_eq.
    unfold closingEvents, when, bind, ret. fold sel.
    destruct (afterCapture cap);
      rewrite ?(call_accepted h Hh); cbn beta iota;
      rewrite ?(call_accepted h Hh); cbn [app];
      rewrite <- ?app_assoc; reflexivity. }
  split; [exact E|]. rewrite E. cbn [fst].
  destruct (closingEvents_quiet c cap) as [Hc1 Hc2].
  destruct (initializeEvents_quiet c cap) as [_ Hi2].
  split.
  - rewrite !advanceTargets_app, Hi2, advanceTargets_markerEvents,
      (advanceTargets_quiet _ Hc2), app_nil_r.
    now destruct sel.
  - intros Hcap.
    assert (F : capturedFrames
                  (initializeEvents c cap
                   ++ match sel with
                      | Some s => [QuerySelector s]
                      | None => []
                      end
                   ++ flat_map (markerEvents c cap sel) (timeline c 0)
                   ++ closingEvents c cap)
                = framesOf (timeline c 0)).
    { rewrite !capturedFrames_app, capturedFrames_markerEvents, Hcap,
        (capturedFrames_quiet _ Hc1),
        (capturedFrames_quiet _ (initializeEvents_no_frame_call c cap)),
        app_nil_r.
      now destruct sel. }
    split; [exact F|]. intros Hasc. rewrite F.
    now apply capture_order_of_timeline.
Qed.

Lemma run_without_failure_witness :
  advanceTargets (fst (timesnap 0 scenarioB frameCapturer alwaysPresent))
  = map time (timeline scenarioB 0).
Proof.
  apply (proj1 (proj2 (run_without_failure 0 scenarioB frameCapturer
                         alwaysPresent (fun n => eq_refl)
                         (or_introl eq_refl)))).
Defined.

(** ** Runs with any host *)

Lemma bind_cases {A B} (m : M A) (k : A -> M B) h tr :
  (exists a tr', m h tr = (tr', Returned a) /\ bind m k h tr = k a h tr')
  \/ fst (bind m k h tr) = fst (m h tr).
Proof.
  unfold bind. destruct (m h tr) as [tr' [a|e|]]; [left|right|right]; eauto.
Qed.

Lemma emitsOnly_capturedFrames {A} (m : M A) :
  emitsOnly not_frame_call m ->
  forall h tr, capturedFrames (fst (m h tr)) = capturedFrames tr.
Proof.
  intros Hm h tr. destruct (Hm h tr) as (new & -> & F).
  now rewrite capturedFrames_app, (capturedFrames_quiet _ F), app_nil_r.
Qed.

Lemma emitsOnly_advanceTargets {A} (m : M A) :
  emitsOnly not_advance m ->
  forall h tr, advanceTargets (fst (m h tr)) = advanceTargets tr.
Proof.
  intros Hm h tr. destruct (Hm h tr) as (new & -> & F).
  now rewrite advanceTargets_app, (advanceTargets_quiet _ F), app_nil_r.
Qed.

Section Closing.

Variables (c : config) (cap : capturer) (P : event -> bool).
Hypothesis P_log : forall m, forallb P (logged c m) = true.
Hypothesis P_after : P AfterCapture = true.
Hypothesis P_close : P BrowserClose = true.

(** The steps after the marker loop. *)
Lemma closing_emits :
  emitsOnly P
    (log c MsgElapsedCaptureTime ;;
     when (afterCapture cap) (call AfterCapture) ;;
     call BrowserClose).
Proof.
  apply emitsOnly_bind; [now apply emitsOnly_log|]. intros _.
  apply emitsOnly_bind.
  - apply emitsOnly_when. intros _. now apply emitsOnly_call.
  - intros _. now apply emitsOnly_call.
Qed.

Lemma catchLog_emits body :
  emitsOnly P body -> emitsOnly P (catchLog c body).
Proof. intros Hb. apply emitsOnly_catchLog; auto. Qed.

End Closing.

Section Prefix.

Variables (c : config) (cap : capturer).

Lemma prefixOf_nil {A} (l : list A) : prefixOf [] l.
Proof. now exists O. Qed.

Lemma prefixOf_refl {A} (l : list A) : prefixOf l l.
Proof. exists (List.length l). now rewrite firstn_all. Qed.

Lemma prefixOf_app {A} (l l1 l2 : list A) :
  prefixOf l1 l2 -> prefixOf (l ++ l1) (l ++ l2).
Proof.
  intros [k ->]. exists (List.length l + k)%nat.
  now rewrite firstn_app_2.
Qed.

Lemma prefixOf_app_r {A} (l1 l2 l3 : list A) :
  prefixOf l1 l2 -> prefixOf l1 (l2 ++ l3).
Proof.
  intros [k ->]. exists (Nat.min k (List.length l2)).
  rewrite firstn_app.
  replace (Nat.min k (List.length l2) - List.length l2)%nat with O by lia.
  cbn [firstn]. rewrite app_nil_r.
  destruct (Nat.le_ge_cases k (List.length l2)) as [H|H].
  - now rewrite Nat.min_l.
  - rewrite Nat.min_r by assumption.
    now rewrite firstn_all, firstn_all2.
Qed.

Hypothesis has_capture : capture cap = true.

(** One marker: either the loop goes on and the frame of the marker, if
    it has one, was captured, or the loop is over and at most that frame
    was captured. *)
Lemma runMarkers_capture_step m rest h tr :
  exists evs,
    (runMarkers c cap (m :: rest) h tr = runMarkers c cap rest h (tr ++ evs)
     /\ capturedFrames evs = framesOf [m])
    \/ (fst (runMarkers c cap (m :: rest) h tr) = tr ++ evs
        /\ prefixOf (capturedFrames evs) (framesOf [m])).
Proof.
  cbn [runMarkers]. unfold framesOf. cbn [flat_map]. rewrite app_nil_r.
  rewrite has_capture.
  destruct (type m);
    unfold bind, call, querySelector, when, frameCountOf, ret, throw;
    repeat match goal with
      | |- context [log c ?x ?h ?t] => rewrite (log_eq c x h t)
      | |- context [match ?x with _ => _ end] =>
          lazymatch x with
          | context [match _ with _ => _ end] => fail
          | _ => destruct x eqn:?
          end
      end;
    cbn [fst snd negb];
    rewrite <- ?app_assoc; cbn [app];
    eexists;
    first
      [ left; split; [reflexivity|];
        repeat (cbn [capturedFrames app];
                rewrite ?capturedFrames_app,
                  ?(capturedFrames_quiet _ (logged_no_frame_call c _)));
        reflexivity
      | right; split; [reflexivity|];
        repeat (cbn [capturedFrames app];
                rewrite ?capturedFrames_app,
                  ?(capturedFrames_quiet _ (logged_no_frame_call c _)));
        first [apply prefixOf_refl | apply prefixOf_nil] ].
Qed.

Lemma runMarkers_captures_prefix ms :
  forall h tr, exists new,
    fst (runMarkers c cap ms h tr) = tr ++ new
    /\ prefixOf (capturedFrames new) (framesOf ms).
Proof.
  induction ms as [|m ms IH]; intros h tr.
  - exists []. cbn. rewrite app_nil_r. split; [reflexivity|].
    apply prefixOf_nil.
  - change (m :: ms) with ([m] ++ ms) at 2. rewrite framesOf_app.
    destruct (runMarkers_capture_step m ms h tr)
      as (evs & [[Hgo Hevs]|[Hstop Hevs]]).
    + destruct (IH h (tr ++ evs)) as (new & E & F).
      exists (evs ++ new). rewrite Hgo, E, app_assoc.
      split; [reflexivity|].
      rewrite capturedFrames_app, Hevs. now apply prefixOf_app.
    + exists evs. split; [exact Hstop|]. now apply prefixOf_app_r.
Qed.

End Prefix.

Section Priming.

Variables (c : config) (P : event -> bool).
Hypothesis P_query : forall s, P (QuerySelector s) = true.
Hypothesis P_animate : forall t, P (GoToTimeAndAnimate t) = true.

Lemma primingLoop_emitsOnly fuel s :
  forall t, emitsOnly P (primingLoop fuel c s t).
Proof.
  induction fuel as [|fuel IH]; intros t; cbn [primingLoop].
  - apply emitsOnly_pending.
  - apply emitsOnly_bind; [now apply emitsOnly_querySelector|].
    intros found. destruct (negb found); [|apply emitsOnly_ret].
    apply emitsOnly_bind; [now apply emitsOnly_call|]. intros _. apply IH.
Qed.

Lemma priming_emitsOnly fuel : emitsOnly P (priming fuel c).
Proof.
  unfold priming.
  destruct (truthy_string (cfg_captureWhileSelectorExists c));
    [|apply emitsOnly_ret].
  apply emitsOnly_bind; [now apply emitsOnly_querySelector|].
  intros found. destruct (negb found); [|apply emitsOnly_ret].
  apply primingLoop_emitsOnly.
Qed.

End Priming.

Lemma initialize_no_frame_call c cap :
  emitsOnly not_frame_call (initialize c cap).
Proof.
  eapply emitsOnly_weaken; [|apply initialize_emits]. intros e. now destruct e.
Qed.

Lemma initialize_not_advance c cap : emitsOnly not_advance (initialize c cap).
Proof.
  eapply emitsOnly_weaken; [|apply initialize_emits]. intros e. now destruct e.
Qed.

Lemma runMarkers_no_capture_hook c cap ms :
  capture cap = false -> emitsOnly not_frame_call (runMarkers c cap ms).
Proof.
  intros Hcap. eapply emitsOnly_weaken; [|apply (runMarkers_emits c cap)].
  intros e. destruct e; try reflexivity. cbn. now rewrite Hcap.
Qed.

Lemma catchLog_capturedFrames c body h tr :
  capturedFrames (fst (catchLog c body h tr))
  = capturedFrames (fst (body h tr)).
Proof.
  unfold catchLog. destruct (body h tr) as [tr' [a|e|]]; try reflexivity.
  rewrite log_eq. cbn [fst].
  now rewrite capturedFrames_app,
    (capturedFrames_quiet _ (logged_no_frame_call c _)), app_nil_r.
Qed.

Lemma catchLog_advanceTargets c body h tr :
  advanceTargets (fst (catchLog c body h tr))
  = advanceTargets (fst (body h tr)).
Proof.
  unfold catchLog. destruct (body h tr) as [tr' [a|e|]]; try reflexivity.
  rewrite log_eq. cbn [fst].
  now rewrite advanceTargets_app,
    (advanceTargets_quiet _ (logged_not_advance c _)), app_nil_r.
Qed.

(** Whatever the host does (rejected calls, an element that comes and
    goes), the frames whose capture is called are an initial part of the
    frames of the timeline, in its order: no frame is skipped and none is
    captured twice.  With an ascending mapping they are 1, 2, ..., up to
    some frame. *)
Theorem frames_are_captured_in_timeline_order (fuel : nat) (c : config)
  (cap : capturer) (h : host) :
  let tr := fst (timesnap fuel c cap h) in
  (capturedFrames tr = []
   \/ exists browserTime,
        primedTime fuel c cap h = Some browserTime
        /\ prefixOf (capturedFrames tr) (framesOf (timeline c browserTime)))
  /\ (ascending (fun i => frameNumToTime c i (framesToCapture c))
        (frameCount c) ->
      prefixOf (capturedFrames tr) (range (frameCount c))).
Proof.
  intros tr.
  assert (Hmain :
            capturedFrames tr = []
            \/ exists browserTime,
                 primedTime fuel c cap h = Some browserTime
                 /\ prefixOf (capturedFrames tr)
                      (framesOf (timeline c browserTime))).
  { unfold tr, timesnap. rewrite catchLog_capturedFrames.
    unfold tryBody.
    destruct (bind_cases (initialize c cap)
                (fun _ => captureRun fuel c cap) h [])
      as [(a & tr1 & E1 & ->) | -> ].
    2:{ left. now rewrite (emitsOnly_capturedFrames _
                             (initialize_no_frame_call c cap)). }
    assert (H1 : capturedFrames tr1 = []).
    { pose proof (emitsOnly_capturedFrames _
                    (initialize_no_frame_call c cap) h []) as H.
      now rewrite E1 in H. }
    unfold captureRun.
    assert (Hprime : emitsOnly not_frame_call (priming fuel c))
      by (now apply priming_emitsOnly).
    destruct (bind_cases (priming fuel c)
                (fun browserTime =>
                   runMarkers c cap (timeline c browserTime) ;;
                   log c MsgElapsedCaptureTime ;;
                   when (afterCapture cap) (call AfterCapture) ;;
                   call BrowserClose) h tr1)
      as [(bt & tr2 & E2 & ->) | -> ].
    2:{ left. now rewrite (emitsOnly_capturedFrames _ Hprime). }
    assert (H2 : capturedFrames tr2 = []).
    { pose proof (emitsOnly_capturedFrames _ Hprime h tr1) as H.
      rewrite E2 in H. cbn [fst] in H. congruence. }
    assert (Hloop : exists new,
               fst (runMarkers c cap (timeline c bt) h tr2) = tr2 ++ new
               /\ prefixOf (capturedFrames new) (framesOf (timeline c bt))).
    { destruct (capture cap) eqn:Hcap.
      - now apply runMarkers_captures_prefix.
      - destruct (runMarkers_no_capture_hook c cap (timeline c bt) Hcap h tr2)
          as (new & E & F).
        exists new. split; [exact E|].
        rewrite (capturedFrames_quiet _ F). apply prefixOf_nil. }
    destruct Hloop as (new & E3 & F3).
    right. exists bt. split.
    { unfold primedTime, bind. now rewrite E1, E2. }
    assert (Hclose : emitsOnly not_frame_call
                       (log c MsgElapsedCaptureTime ;;
                        when (afterCapture cap) (call AfterCapture) ;;
                        call BrowserClose))
      by (apply closing_emits; auto using logged_no_frame_call).
    destruct (bind_cases (runMarkers c cap (timeline c bt))
                (fun _ =>
                   log c MsgElapsedCaptureTime ;;
                   when (afterCapture cap) (call AfterCapture) ;;
                   call BrowserClose) h tr2)
      as [(a' & tr3 & E4 & ->) | -> ].
    - rewrite (emitsOnly_capturedFrames _ Hclose).
      rewrite E4 in E3. cbn [fst] in E3. subst tr3.
      now rewrite capturedFrames_app, H2.
    - rewrite E3. now rewrite capturedFrames_app, H2. }
  split; [exact Hmain|].
  intros Hasc. destruct Hmain as [->|(bt & _ & Hp)]; [apply prefixOf_nil|].
  now rewrite (proj2 (capture_order_of_timeline c bt Hasc)) in Hp.
Qed.

Lemma frames_are_captured_in_timeline_order_witness :
  prefixOf
    (capturedFrames (fst (timesnap 0 scenarioC frameCapturer goneAtSixth)))
    (range (frameCount scenarioC)).
Proof.
  apply (proj2 (frames_are_captured_in_timeline_order 0 scenarioC
                  frameCapturer goneAtSixth)).
  apply default_mapping_ascending; reflexivity.
Defined.

(** Without [captureWhileSelectorExists] the clock never goes back in a
    run, whatever the host does: the targets of the advances are in
    ascending order. *)
Theorem clock_ascends_without_selector (fuel : nat) (c : config)
  (cap : capturer) (h : host) :
  truthy_string (cfg_captureWhileSelectorExists c) = None ->
  StronglySorted Qcle (advanceTargets (fst (timesnap fuel c cap h))).
Proof.
  intros Hsel. unfold timesnap. rewrite catchLog_advanceTargets.
  unfold tryBody.
  destruct (bind_cases (initialize c cap)
              (fun _ => captureRun fuel c cap) h [])
    as [(a & tr1 & E1 & ->) | -> ].
  2:{ rewrite (emitsOnly_advanceTargets _ (initialize_not_advance c cap)).
      constructor. }
  assert (H1 : advanceTargets tr1 = []).
  { pose proof (emitsOnly_advanceTargets _
                  (initialize_not_advance c cap) h []) as H.
    now rewrite E1 in H. }
  unfold captureRun, priming. rewrite Hsel. unfold bind at 1, ret at 1.
  destruct (marker_loop_targets_ascend c cap 0 h tr1) as (new & E3 & F3).
  assert (Hclose : emitsOnly not_advance
                     (log c MsgElapsedCaptureTime ;;
                      when (afterCapture cap) (call AfterCapture) ;;
                      call BrowserClose))
    by (apply closing_emits; auto using logged_not_advance).
  destruct (bind_cases (runMarkers c cap (timeline c 0))
              (fun _ =>
                 log c MsgElapsedCaptureTime ;;
                 when (afterCapture cap) (call AfterCapture) ;;
                 call BrowserClose) h tr1)
    as [(a' & tr3 & E4 & ->) | -> ].
  - rewrite (emitsOnly_advanceTargets _ Hclose).
    rewrite E4 in E3. cbn [fst] in E3. subst tr3.
    now rewrite advanceTargets_app, H1.
  - rewrite E3. now rewrite advanceTargets_app, H1.
Qed.

Lemma clock_ascends_without_selector_witness :
  StronglySorted Qcle
    (advanceTargets
       (fst (timesnap 0 delayedSubdivided frameCapturer
               (rejectingAt 12 "Protocol error"%string)))).
Proof.
  apply (clock_ascends_without_selector 0 delayedSubdivided frameCapturer
           (rejectingAt 12 "Protocol error"%string)).
  reflexivity.
Defined.

(** * The address of the page and the capture mode *)

Lemma hasScheme_nonempty u : hasScheme u = true -> u <> EmptyString.
Proof. intros H ->. discriminate. Qed.

Lemma truthy_string_nonempty u :
  u <> EmptyString -> truthy_string (Some u) = Some u.
Proof.
  intros Hu. cbn. destruct (String.eqb u "") eqn:E; [|reflexivity].
  apply String.eqb_eq in E. contradiction.
Qed.

(** The address given to [page.goto] always holds "://": an address that
    has it is left as it is, any other one, and the default [index.html]
    for a missing or empty one, is turned into a [file://] address.
    Resolving an address a second time changes nothing. *)
Theorem page_address_has_a_scheme (pathResolve : string -> string)
  (url : option string) :
  hasScheme (resolveUrl pathResolve url) = true
  /\ (forall u, url = Some u -> hasScheme u = true ->
                resolveUrl pathResolve url = u)
  /\ (truthy_string url = None ->
      resolveUrl pathResolve url
      = ("file://" ++ pathResolve "index.html")%string)
  /\ resolveUrl pathResolve (Some (resolveUrl pathResolve url))
     = resolveUrl pathResolve url.
Proof.
  assert (Hfile : forall r, hasScheme ("file://" ++ r) = true)
    by (intros r; destruct r; reflexivity).
  assert (H1 : hasScheme (resolveUrl pathResolve url) = true).
  { unfold resolveUrl.
    destruct (hasScheme match truthy_string url with
                        | Some u => u
                        | None => "index.html"%string
                        end) eqn:E; cbn [negb]; [exact E|apply Hfile]. }
  assert (H2 : forall u, hasScheme u = true ->
                         resolveUrl pathResolve (Some u) = u).
  { intros u Hu. unfold resolveUrl.
    rewrite (truthy_string_nonempty u (hasScheme_nonempty u Hu)).
    now rewrite Hu. }
  split; [exact H1|]. split; [|split].
  - intros u -> Hu. now apply H2.
  - intros Hn. unfold resolveUrl. now rewrite Hn.
  - now apply H2.
Qed.

Lemma page_address_has_a_scheme_witness :
  resolveUrl (fun p => ("/srv/" ++ p)%string)
    (Some "https://example.org/a.html"%string)
  = "https://example.org/a.html"%string.
Proof.
  apply (proj1 (proj2 (page_address_has_a_scheme
                         (fun p => ("/srv/" ++ p)%string)
                         (Some "https://example.org/a.html"%string)))
           "https://example.org/a.html"%string); reflexivity.
Defined.

Lemma dropPrefix_app p s : dropPrefix p (p ++ s) = Some s.
Proof.
  induction p as [|a p IH]; [reflexivity|].
  cbn [dropPrefix String.append]. now rewrite Ascii.eqb_refl.
Qed.

Lemma dropPrefix_inv p :
  forall s r, dropPrefix p s = Some r -> s = (p ++ r)%string.
Proof.
  induction p as [|a p IH]; intros s r H; cbn in H.
  - now injection H as ->.
  - destruct s as [|b s]; [discriminate|].
    destruct (Ascii.eqb a b) eqn:E; [|discriminate].
    apply Ascii.eqb_eq in E. subst b. cbn. f_equal. now apply IH.
Qed.

Lemma prefix_cons a p b s :
  String.prefix (String a p) (String b s)
  = if Ascii.ascii_dec a b then String.prefix p s else false.
Proof. reflexivity. Qed.

Lemma prefix_dropPrefix p :
  forall s, String.prefix p s = true <-> exists r, dropPrefix p s = Some r.
Proof.
  induction p as [|a p IH]; intros s.
  - destruct s; (split; [intros _; eexists; reflexivity|reflexivity]).
  - destruct s as [|b s].
    + split; [discriminate|intros [r H]; discriminate].
    + rewrite prefix_cons. cbn [dropPrefix].
      destruct (Ascii.ascii_dec a b) as [->|Hab].
      * rewrite Ascii.eqb_refl. apply IH.
      * apply Ascii.eqb_neq in Hab. rewrite Hab.
        split; [discriminate|intros [r H]; discriminate].
Qed.

(** The capture mode.  A [canvasCaptureMode] that starts with "immediate"
    selects the immediate canvas handler, and the handler is given what
    follows "immediate" and one optional colon; what it is given and what
    was cut off make up the configured string again.  Any other non-empty
    string selects the canvas capturer and is passed on as it is; a
    missing or empty one selects the screenshot capturer. *)
Theorem capture_mode_selection (c : config) :
  (forall s,
     truthy_string (cfg_canvasCaptureMode c) = Some s ->
     String.prefix "immediate" s = true ->
     captureMode c = ImmediateCanvas
     /\ exists target,
          canvasCaptureModeForCapturer c = Some target
          /\ (s = ("immediate:" ++ target)%string
              \/ (s = ("immediate" ++ target)%string
                  /\ dropPrefix ":" target = None)))
  /\ (forall target,
        cfg_canvasCaptureMode c = Some ("immediate:" ++ target)%string ->
        captureMode c = ImmediateCanvas
        /\ canvasCaptureModeForCapturer c = Some target)
  /\ (forall s,
        truthy_string (cfg_canvasCaptureMode c) = Some s ->
        String.prefix "immediate" s = false ->
        captureMode c = Canvas /\ canvasCaptureModeForCapturer c = Some s)
  /\ (truthy_string (cfg_canvasCaptureMode c) = None ->
      captureMode c = Screenshot
      /\ canvasCaptureModeForCapturer c = cfg_canvasCaptureMode c).
Proof.
  unfold captureMode, canvasCaptureModeForCapturer.
  split; [|split; [|split]].
  - intros s Hs Hp. rewrite Hs, Hp. split; [reflexivity|].
    destruct (proj1 (prefix_dropPrefix "immediate" s) Hp) as [rest Hrest].
    unfold stripImmediate. rewrite Hrest.
    apply dropPrefix_inv in Hrest.
    destruct (dropPrefix ":" rest) as [target|] eqn:Hc.
    + exists target. split; [reflexivity|]. left.
      apply dropPrefix_inv in Hc. subst. reflexivity.
    + exists rest. split; [reflexivity|]. right. now split.
  - intros target ->. cbn. split; [reflexivity|].
    unfold stripImmediate. cbn. reflexivity.
  - intros s Hs Hp. now rewrite Hs, Hp.
  - intros Hn. now rewrite Hn.
Qed.

Lemma capture_mode_selection_witness :
  captureMode immediatePng = ImmediateCanvas
  /\ canvasCaptureModeForCapturer immediatePng = Some "png"%string.
Proof.
  apply (proj1 (proj2 (capture_mode_selection immediatePng)) "png"%string).
  reflexivity.
Defined.
